(** * mail-download: the synchronisation policy of the archiver, the uploader
      and the retention parser, embedded from the Python sources

    - [PyStr]     Python [str] values as lists of Unicode code points, with
                  the string methods the sources call;
    - [Config]    [parse_time_range] of [src/config.py];
    - [Archiver]  the download and deletion engines of [src/archiver.py];
    - [Uploader]  the upload engine of [src/uploader.py];
    - [NamePolicy] the sanitiser, which the sources import from
                  [pathvalidate].

    The embedding comes first; the properties of each module follow it. *)

From Stdlib Require Import NArith ZArith Lia List Ascii String.
From stdpp Require Import base option list gmap sets strings pretty.

Local Open Scope N_scope.

(* ===================================================================== *)
(** * Python strings *)
(* ===================================================================== *)

Module PyStr.

(** A Python [str] is a sequence of Unicode code points. *)
Abbreviation pystr := (list N).

(** An ASCII literal of the source, as code points. *)
Definition lit (s : string) : pystr :=
  map N_of_ascii (list_ascii_of_string s).

(** [str.isspace] for one character: the code points the interpreter
    classifies as whitespace (bidirectional class WS, B or S, or general
    category Zs). *)
Definition isspace (c : N) : bool :=
  ((9 <=? c) && (c <=? 13)) || ((28 <=? c) && (c <=? 32))
  || (c =? 133) || (c =? 160) || (c =? 5760)
  || ((8192 <=? c) && (c <=? 8202))
  || (c =? 8232) || (c =? 8233) || (c =? 8239) || (c =? 8287)
  || (c =? 12288).

(** [s.lstrip()], [s.rstrip()] and [s.strip()] without argument. *)
Fixpoint lstrip (s : pystr) : pystr :=
  match s with
  | c :: s' => if isspace c then lstrip s' else s
  | [] => []
  end.

Definition rstrip (s : pystr) : pystr := rev (lstrip (rev s)).

Definition strip (s : pystr) : pystr := rstrip (lstrip s).

(** [s.startswith(p)]. *)
Fixpoint startswith (p s : pystr) : bool :=
  match p, s with
  | [], _ => true
  | a :: p', b :: s' => (a =? b) && startswith p' s'
  | _ :: _, [] => false
  end.

(** [needle in hay] for two strings. *)
Fixpoint contains (needle hay : pystr) : bool :=
  startswith needle hay ||
  match hay with
  | [] => false
  | _ :: hay' => contains needle hay'
  end.

(** [s.replace(old, new)] where [old] and [new] are single characters. *)
Definition replace (old new : N) (s : pystr) : pystr :=
  map (fun c => if c =? old then new else c) s.

(** [s.split(sep)] for a one-character separator: the pieces between the
    separators, empty pieces included; never the empty list. *)
Fixpoint split (sep : N) (s : pystr) : list pystr :=
  match s with
  | [] => [[]]
  | c :: s' =>
      if c =? sep then [] :: split sep s'
      else match split sep s' with
           | piece :: pieces => (c :: piece) :: pieces
           | [] => [[c]]
           end
  end.

(** [s.rfind(ch)] for a one-character argument: the highest index of [ch]
    in [s], [None] where Python returns -1. *)
Fixpoint rfind (ch : N) (s : pystr) : option nat :=
  match s with
  | [] => None
  | c :: s' =>
      match rfind ch s' with
      | Some i => Some (S i)
      | None => if c =? ch then Some 0%nat else None
      end
  end.

(** [str(n)] for a non-negative integer. *)
Definition str_of_nat (n : nat) : pystr := lit (pretty n).

End PyStr.

Import PyStr.

(* ===================================================================== *)
(** * src/config.py: the retention expression parser *)
(* ===================================================================== *)

Module Config.

(** The part of the interpreter's Unicode database that [\d] and [int]
    consult: [Nd_value c] is the digit value of [c] when [c] is in general
    category Nd (decimal number).  On ASCII the table is fixed; above it the
    table is the database's, and no whitespace character is in Nd. *)
Record UnicodeDB := {
  Nd_value : N -> option N;
  Nd_ascii : forall c, c < 128 ->
    Nd_value c = if (48 <=? c) && (c <=? 57) then Some (c - 48) else None;
  Nd_not_space : forall c v, Nd_value c = Some v -> isspace c = false
}.

(** What a call can raise. *)
Inductive exn :=
| ValueError (msg : pystr)
| OverflowError.

(** [datetime.timedelta], normalised; the parser only ever sets days. *)
Record timedelta := Timedelta { days : N }.

Definition timedelta_max_days : N := 999999999.

(** [timedelta(days=d, weeks=w)]: a week is seven days, and a magnitude
    above [timedelta.max] raises OverflowError. *)
Definition mk_timedelta (d w : N) : exn + timedelta :=
  let total := d + 7 * w in
  if total <=? timedelta_max_days then inr (Timedelta total)
  else inl OverflowError.

(** The default of [sys.int_max_str_digits], the limit of the conversion
    between text and integers that the interpreter has since 3.11 (and the
    security releases of 3.7 to 3.10). *)
Definition int_max_str_digits : N := 4300.

(** The message of the ValueError [int] raises beyond the limit. *)
Definition int_limit_msg (digits : nat) : pystr :=
  lit "Exceeds the limit (4300 digits) for integer string conversion: "
  ++ lit "value has " ++ str_of_nat digits
  ++ lit " digits; use sys.set_int_max_str_digits() to increase the limit".

Section Parser.
Variable db : UnicodeDB.

(** [\d] *)
Definition is_digit (c : N) : bool :=
  match Nd_value db c with Some _ => true | None => false end.

(** [[DdMmYyWw]] *)
Definition is_unit (c : N) : bool :=
  existsb (N.eqb c) (lit "DdMmYyWw").

(** The longest run of digits at the front, and what follows it. *)
Fixpoint span_digits (s : pystr) : pystr * pystr :=
  match s with
  | c :: s' =>
      if is_digit c
      then let (ds, rest) := span_digits s' in (c :: ds, rest)
      else ([], s)
  | [] => ([], [])
  end.

(** [re.match(r"^(\d+)([DdMmYyWw])$", s)]: the two groups on a match.
    [$] matches at the end of the string and also just before a newline
    that ends it. *)
Definition re_match (s : pystr) : option (pystr * N) :=
  match span_digits s with
  | ((_ :: _) as ds, [u]) => if is_unit u then Some (ds, u) else None
  | ((_ :: _) as ds, [u; nl]) =>
      if is_unit u && (nl =? 10) then Some (ds, u) else None
  | _ => None
  end.

(** The number a run of decimal digits reads. *)
Definition decimal_value (ds : pystr) : N :=
  fold_left (fun acc c => 10 * acc + default 0 (Nd_value db c)) ds 0.

(** [int(digits)] on a run of decimal digits: the conversion refuses a
    text of more than [sys.int_max_str_digits] digits, leading zeros
    counted, with a ValueError. *)
Definition int_of_digits (ds : pystr) : exn + N :=
  if int_max_str_digits <? N.of_nat (length ds)
  then inl (ValueError (int_limit_msg (length ds)))
  else inr (decimal_value ds).

(** [unit.upper()] on a letter of the unit class. *)
Definition upper (c : N) : N :=
  if (97 <=? c) && (c <=? 122) then c - 32 else c.

Definition invalid_format_msg (time_str : pystr) : pystr :=
  lit "Invalid time range format: '" ++ time_str ++ lit "'. "
  ++ lit "Use formats like: 30D (days), 6M (months), 1Y (years), 2W (weeks)".

Definition unknown_unit_msg (unit : N) : pystr :=
  lit "Unknown time unit: " ++ [unit].

Definition parse_time_range (time_str : pystr) : exn + timedelta :=
  match re_match (strip time_str) with
  | None => inl (ValueError (invalid_format_msg time_str))
  | Some (digits, letter) =>
      match int_of_digits digits with
      | inl e => inl e
      | inr value =>
          let unit := upper letter in
          if unit =? 68 (* D *) then mk_timedelta value 0
          else if unit =? 87 (* W *) then mk_timedelta 0 value
          else if unit =? 77 (* M *) then mk_timedelta (value * 30) 0
          else if unit =? 89 (* Y *) then mk_timedelta (value * 365) 0
          else inl (ValueError (unknown_unit_msg unit))
      end
  end.

End Parser.

End Config.

(* ===================================================================== *)
(** * src/utils.py *)
(* ===================================================================== *)

Module Utils.

Abbreviation bytes := (list Byte.byte).

(** One element of the list [email.header.decode_header] returns. *)
Inductive header_part :=
| BytesPart (part : bytes) (encoding : option pystr)
| StrPart (part : pystr).

Section DecodeMimeHeader.
(** [email.header.decode_header]. *)
Variable decode_header : pystr -> list header_part.
(** [part.decode(encoding, errors="replace")]; [None] stands for the
    LookupError of an unknown codec. *)
Variable bytes_decode : bytes -> pystr -> option pystr.
(** Decoding as UTF-8 with replacement never fails. *)
Variable utf8_decode : bytes -> pystr.

Definition decode_part (p : header_part) : pystr :=
  match p with
  | BytesPart part encoding =>
      let codec :=
        match encoding with
        | Some ((_ :: _) as e) => e
        | _ => lit "utf-8"
        end in
      match bytes_decode part codec with
      | Some s => s
      | None => utf8_decode part
      end
  | StrPart part => part
  end.

Definition decode_mime_header (header_value : option pystr) : pystr :=
  match header_value with
  | None => []
  | Some v => concat (map decode_part (decode_header v))
  end.
End DecodeMimeHeader.

End Utils.

Import Utils.

(* ===================================================================== *)
(** * src/archiver.py: the download and deletion engines *)
(* ===================================================================== *)

Module Archiver.

(** What the engines print on the console is presentation and is not
    part of the embedding. *)

(** ** Local storage *)

(** A [pathlib.Path], as its components. *)
Abbreviation Path := (list pystr).

(** [p / name] where [name] is one file name, as [sanitize_filename]
    returns it: an empty name or a single dot adds no component. *)
Definition path_join (p : Path) (name : pystr) : Path :=
  if bool_decide (name = [] \/ name = lit ".") then p else p ++ [name].

Infix "</>" := path_join (at level 40, left associativity).

Inductive node :=
| File (content : bytes)
| Dir.

(** The entries that exist, by path. *)
Abbreviation filesystem := (gmap Path node).

(** [p.exists()] *)
Definition path_exists (fs : filesystem) (p : Path) : bool :=
  bool_decide (is_Some (fs !! p)).

(** [open(p, "wb")] followed by [f.write(data)], where [open] returns: on
    a path that is a directory it raises IsADirectoryError, which the
    archiver does not catch. *)
Definition write_file (p : Path) (data : bytes) (fs : filesystem)
  : filesystem := <[p := File data]> fs.

(** [p.mkdir(parents=True, exist_ok=True)], where it returns: every
    missing prefix of [p] becomes a directory, entries already there stay
    as they are.  The call raises, uncaught by the archiver, when [p] or
    one of its parents is a regular file. *)
Definition mkdir_one (p : Path) (fs : filesystem) : filesystem :=
  match fs !! p with
  | Some _ => fs
  | None => <[p := Dir]> fs
  end.

Definition mkdir_parents (p : Path) (fs : filesystem) : filesystem :=
  foldr mkdir_one fs (map (fun k => take k p) (seq 1 (length p))).

(** [os.path.splitext] (POSIX): the extension starts at the last dot of the
    last component, unless only dots precede it there. *)
Definition splitext (p : pystr) : pystr * pystr :=
  match rfind 46 p with
  | None => (p, [])
  | Some dotIndex =>
      let filenameIndex :=
        match rfind 47 p with Some sepIndex => S sepIndex | None => 0%nat end in
      if bool_decide (filenameIndex <= dotIndex)%nat
         && existsb (fun c => negb (c =? 46))
                    (drop filenameIndex (take dotIndex p))
      then (take dotIndex p, drop dotIndex p)
      else (p, [])
  end.

(** ** Messages *)

(** One part of [msg.walk()], through the three accessors the archiver
    calls on it: the Content-Disposition header, [get_filename()] and
    [get_payload(decode=True)]. *)
Record Part := {
  content_disposition : option pystr;
  get_filename : option pystr;
  get_payload : option bytes
}.

Record Message := {
  subject : option pystr;
  is_multipart : bool;
  walk : list Part
}.

(** ** The IMAP session *)

(** [select_folder]: IMAPClientError, or the dictionary of the reply, of
    which only the key EXISTS is read. *)
Inductive select_result :=
| SelectError
| SelectInfo (EXISTS : option nat).

Inductive search_criteria :=
| ALL
| BEFORE (date_str : pystr).

Inductive status := downloaded | skipped | error.

(** What the deletion engine sends to the server and asks the operator,
    in the order of the calls. *)
Inductive event :=
| SelectFolder (folder_name : pystr) (readonly : bool)
| Search (criteria : search_criteria)
| DeleteMessages (messages : list nat)
| Expunge
| ConfirmAsk (prompt : pystr) (answer : bool).

Section Engine.
(** [datetime.datetime] and the two formats the archiver prints it in. *)
Variable datetime : Type.
Variable strftime_dir : datetime -> pystr.     (* "%Y%m%d_%H%M%S" *)
Variable strftime_before : datetime -> pystr.  (* "%d-%b-%Y" *)
(** [datetime.now()], read when a reply carries no INTERNALDATE. *)
Variable now : datetime.
(** [pathvalidate.sanitize_filename] *)
Variable sanitize_filename : pystr -> pystr.
(** [utils.decode_mime_header] on a header that is present. *)
Variable decode_mime_header : pystr -> pystr.
(** [email.message_from_bytes] *)
Variable message_from_bytes : bytes -> Message.
(** [st_size] of a directory entry. *)
Variable dir_st_size : nat.

(** One entry of the dictionary [fetch] returns. *)
Record Fetched := {
  RFC822 : bytes;
  INTERNALDATE : option datetime
}.

(** [fetch([uid], ...)]: IMAPClientError, or a dictionary that holds
    [uid] or does not. *)
Inductive fetch_result :=
| FetchError
| FetchReply (entry : option Fetched).

(** The replies of the server the session is connected to. *)
Record IMAPClient := {
  select_folder : pystr -> bool -> select_result;
  search : search_criteria -> list nat;
  fetch : nat -> fetch_result
}.

(** [self.client] *)
Variable client : option IMAPClient.

(** [p.stat().st_size] of an entry that exists. *)
Definition st_size (n : node) : nat :=
  match n with
  | File content => length content
  | Dir => dir_st_size
  end.

(** *** Download *)

Definition _select_folder_for_download (folder_name : pystr) : option nat :=
  match client with
  | None => None
  | Some c =>
      match select_folder c folder_name true with
      | SelectInfo e => Some (default 0%nat e)
      | SelectError => None
      end
  end.

Definition _show_dry_run_info (total_messages : nat) : nat * nat :=
  (total_messages, 0%nat).

Definition _create_folder_output_dir (folder_name : pystr)
    (output_path : Path) (fs : filesystem) : Path * filesystem :=
  let folder_safe_name := sanitize_filename folder_name in
  let folder_output := output_path </> folder_safe_name in
  (folder_output, mkdir_parents folder_output fs).

Definition _create_email_directory (msg : Message) (uid : nat)
    (internal_date : datetime) (folder_output : Path) : Path :=
  let subject :=
    decode_mime_header (default (lit "No Subject") (subject msg)) in
  let date_str := strftime_dir internal_date in
  let safe_subject := take 50 (sanitize_filename subject) in
  let email_dir_name :=
    date_str ++ lit "_" ++ str_of_nat uid ++ lit "_" ++ safe_subject in
  folder_output </> email_dir_name.

Definition _should_skip_email (fs : filesystem) (email_path : Path)
    (raw_email : bytes) : bool :=
  match fs !! email_path with
  | Some n => bool_decide (st_size n = length raw_email)
  | None => false
  end.

(** The [while attachment_path.exists()] loop of
    [_save_single_attachment], for at most [fuel] turns. *)
Fixpoint probe_loop (fuel : nat) (fs : filesystem) (email_dir : Path)
    (filename : pystr) (attachment_path : Path) (counter : nat)
  : option Path :=
  if path_exists fs attachment_path then
    match fuel with
    | O => None
    | S fuel' =>
        let '(name, ext) := splitext filename in
        probe_loop fuel' fs email_dir filename
          (email_dir </> (name ++ lit "_" ++ str_of_nat counter ++ ext))
          (S counter)
    end
  else Some attachment_path.

(** The path the loop leaves in [attachment_path].  A turn is spent only
    on a path that exists, so more turns than the file system has
    entries are never needed ([probe_loop_returns]). *)
Definition resolve_collision (fs : filesystem) (email_dir : Path)
    (filename : pystr) : Path :=
  default email_dir
    (probe_loop (S (size fs)) fs email_dir filename
                (email_dir </> filename) 1).

Definition _save_single_attachment (part : Part) (filename : pystr)
    (email_dir : Path) (fs : filesystem) : bool * filesystem :=
  let filename := decode_mime_header filename in
  let filename := sanitize_filename filename in
  let attachment_path := resolve_collision fs email_dir filename in
  match get_payload part with
  | Some ((_ :: _) as payload) =>
      (true, write_file attachment_path payload fs)
  | _ => (false, fs)
  end.

(** The body of the loop over [msg.walk()]. *)
Definition save_part (email_dir : Path) (acc : nat * filesystem)
    (part : Part) : nat * filesystem :=
  let '(attachments_count, fs) := acc in
  let cd := default [] (content_disposition part) in
  if negb (contains (lit "attachment") cd)
     && negb (contains (lit "inline") cd)
  then acc
  else
    match get_filename part with
    | Some ((_ :: _) as filename) =>
        let '(saved, fs') :=
          _save_single_attachment part filename email_dir fs in
        (if saved then S attachments_count else attachments_count, fs')
    | _ => acc
    end.

Definition _save_attachments (msg : Message) (email_dir : Path)
    (fs : filesystem) : nat * filesystem :=
  if negb (is_multipart msg) then (0%nat, fs)
  else fold_left (save_part email_dir) (walk msg) (0%nat, fs).

Definition _process_single_message (uid : nat) (folder_output : Path)
    (fs : filesystem) : (status * nat) * filesystem :=
  match client with
  | None => ((error, 0%nat), fs)
  | Some c =>
      match fetch c uid with
      | FetchError => ((error, 0%nat), fs)
      | FetchReply None => ((error, 0%nat), fs)
      | FetchReply (Some reply) =>
          let raw_email := RFC822 reply in
          let internal_date := default now (INTERNALDATE reply) in
          let msg := message_from_bytes raw_email in
          let email_dir :=
            _create_email_directory msg uid internal_date folder_output in
          let email_path := email_dir </> lit "email.eml" in
          if _should_skip_email fs email_path raw_email
          then ((skipped, 0%nat), fs)
          else
            let fs := mkdir_parents email_dir fs in
            let fs := write_file email_path raw_email fs in
            let '(attachment_count, fs) :=
              _save_attachments msg email_dir fs in
            ((downloaded, attachment_count), fs)
      end
  end.

(** The counters of [_download_messages] and the storage, between two
    turns of its loop. *)
Record counters := {
  emails_downloaded : nat;
  emails_skipped : nat;
  attachments_downloaded : nat
}.

Definition download_step (folder_output : Path)
    (acc : counters * filesystem) (uid : nat) : counters * filesystem :=
  let '(k, fs) := acc in
  let '((result, attach_count), fs') :=
    _process_single_message uid folder_output fs in
  match result with
  | downloaded =>
      ({| emails_downloaded := S (emails_downloaded k);
          emails_skipped := emails_skipped k;
          attachments_downloaded :=
            (attachments_downloaded k + attach_count)%nat |}, fs')
  | skipped =>
      ({| emails_downloaded := emails_downloaded k;
          emails_skipped := S (emails_skipped k);
          attachments_downloaded := attachments_downloaded k |}, fs')
  | error => (k, fs')
  end.

Definition _download_messages (messages : list nat)
    (folder_output : Path) (fs : filesystem) : (nat * nat) * filesystem :=
  let '(k, fs') :=
    fold_left (download_step folder_output) messages
      ({| emails_downloaded := 0; emails_skipped := 0;
          attachments_downloaded := 0 |}, fs) in
  ((emails_downloaded k, attachments_downloaded k), fs').

Definition download_folder (folder_name : pystr) (output_path : Path)
    (dry_run : bool) (fs : filesystem) : (nat * nat) * filesystem :=
  match client with
  | None => ((0%nat, 0%nat), fs)
  | Some c =>
      match _select_folder_for_download folder_name with
      | None => ((0%nat, 0%nat), fs)
      | Some total_messages =>
          if (total_messages =? 0)%nat then ((0%nat, 0%nat), fs)
          else if dry_run then (_show_dry_run_info total_messages, fs)
          else
            let '(folder_output, fs) :=
              _create_folder_output_dir folder_name output_path fs in
            let messages := search c ALL in
            _download_messages messages folder_output fs
      end
  end.

(** *** Deletion *)

(** [rich.prompt.Confirm.ask]: the operator's answer to a prompt. *)
Variable confirm : pystr -> bool.

Definition prompt_sure : pystr :=
  lit "[red]Are you sure you want to delete these messages?[/red]".

Definition prompt_again : pystr :=
  lit "[red]This action cannot be undone. Type 'yes' to confirm deletion[/red]".

(** Every function below returns its result together with the events
    it issued, in order. *)

Definition _select_folder_for_delete (folder_name : pystr)
  : option nat * list event :=
  match client with
  | None => (None, [])
  | Some c =>
      (match select_folder c folder_name false with
       | SelectInfo e => Some (default 0%nat e)
       | SelectError => None
       end, [SelectFolder folder_name false])
  end.

(** The description of the filter that the source returns along with the
    messages is only printed, and is left out. *)
Definition _search_messages_for_delete (since_date : option datetime)
  : list nat * list event :=
  match client with
  | None => ([], [])
  | Some c =>
      match since_date with
      | Some d =>
          let date_str := strftime_before d in
          (search c (BEFORE date_str), [Search (BEFORE date_str)])
      | None => (search c ALL, [Search ALL])
      end
  end.

Definition _show_delete_dry_run (messages : list nat) : nat :=
  length messages.

Definition _confirm_deletion : bool * list event :=
  let sure := confirm prompt_sure in
  if negb sure then (false, [ConfirmAsk prompt_sure sure])
  else
    let again := confirm prompt_again in
    if negb again
    then (false, [ConfirmAsk prompt_sure sure; ConfirmAsk prompt_again again])
    else (true, [ConfirmAsk prompt_sure sure; ConfirmAsk prompt_again again]).

Definition _execute_deletion (messages : list nat) : nat * list event :=
  match client with
  | None => (0%nat, [])
  | Some _ => (length messages, [DeleteMessages messages; Expunge])
  end.

Definition delete_folder_contents (folder_name : pystr) (dry_run : bool)
    (since_date : option datetime) : nat * list event :=
  match client with
  | None => (0%nat, [])
  | Some _ =>
      let '(total_messages, ev_select) :=
        _select_folder_for_delete folder_name in
      match total_messages with
      | None | Some O => (0%nat, ev_select)
      | Some (S _) =>
          let '(messages, ev_search) :=
            _search_messages_for_delete since_date in
          if (length messages =? 0)%nat
          then (0%nat, ev_select ++ ev_search)
          else if dry_run
          then (_show_delete_dry_run messages, ev_select ++ ev_search)
          else
            let '(confirmed, ev_confirm) := _confirm_deletion in
            if negb confirmed
            then (0%nat, ev_select ++ ev_search ++ ev_confirm)
            else
              let '(deleted, ev_delete) := _execute_deletion messages in
              (deleted, ev_select ++ ev_search ++ ev_confirm ++ ev_delete)
      end
  end.

End Engine.

Arguments RFC822 {datetime}.
Arguments INTERNALDATE {datetime}.
Arguments FetchError {datetime}.
Arguments FetchReply {datetime}.
Arguments select_folder {datetime}.
Arguments search {datetime}.
Arguments fetch {datetime}.

End Archiver.

(* ===================================================================== *)
(** * src/uploader.py: the upload engine *)
(* ===================================================================== *)

Module Uploader.

(** The outcome of a call to the SMB client: it returns, or it raises
    OSError; [Raise e] carries [str(e)]. *)
Inductive outcome :=
| Return
| Raise (e : pystr).

(** The calls the engine makes to the SMB client. *)
Inductive call :=
| RegisterSession (host username password : pystr)
| Makedirs (path : pystr)
| Stat (path : pystr)
| OpenFileWrite (path : pystr) (data : bytes).

(** [smbclient], over the states [W] of the share it talks to. *)
Record SMBClient (W : Type) := {
  register_session : pystr -> pystr -> pystr -> W -> outcome * W;
  makedirs : pystr -> W -> outcome * W;
  stat : pystr -> W -> outcome * W;
  open_file_write : pystr -> bytes -> W -> outcome * W
}.
Arguments register_session {W}.
Arguments makedirs {W}.
Arguments stat {W}.
Arguments open_file_write {W}.

(** A file of the local tree: its path relative to the upload root, its
    [st_size], and what reading it yields ([None]: [open] raises
    OSError). *)
Record LocalFile := {
  relative_path : pystr;
  local_size : nat;
  local_content : option bytes
}.

Inductive result := uploaded | skipped | error.

(** [NASUploader], after [__init__]. *)
Record NASUploader := {
  host : pystr;
  share : pystr;
  username : pystr;
  password : pystr;
  base_path : pystr
}.

Section Engine.
Context {W : Type}.
Variable smbclient : SMBClient W.
Variable self : NASUploader.

(** The state of one run: the share, the calls made so far, and the
    set [ctx.created_dirs]. *)
Record run := {
  world : W;
  calls : list call;
  created_dirs : gset pystr
}.

Definition M (A : Type) : Type := run -> A * run.

#[local] Instance M_ret : MRet M := fun A a r => (a, r).
#[local] Instance M_bind : MBind M :=
  fun A B f m r => let '(a, r') := m r in f a r'.

(** One call: it is recorded, and the share answers. *)
Definition invoke (c : call) (op : W -> outcome * W) : M outcome :=
  fun r =>
    let '(o, w) := op (world r) in
    (o, {| world := w; calls := calls r ++ [c];
           created_dirs := created_dirs r |}).

Definition call_makedirs (path : pystr) : M outcome :=
  invoke (Makedirs path) (makedirs smbclient path).

Definition call_stat (path : pystr) : M outcome :=
  invoke (Stat path) (stat smbclient path).

Definition call_open_file_write (path : pystr) (data : bytes) : M outcome :=
  invoke (OpenFileWrite path data) (open_file_write smbclient path data).

Definition call_register_session : M outcome :=
  invoke (RegisterSession (host self) (username self) (password self))
         (register_session smbclient (host self) (username self)
                           (password self)).

Definition backslash : pystr := [92].

(** The loop of [_create_directories_incrementally] over [parts[4:]]. *)
Fixpoint create_levels (current_path : pystr) (parts : list pystr)
  : M unit :=
  match parts with
  | [] => mret tt
  | part :: parts' =>
      match part with
      | [] => create_levels current_path parts'
      | _ :: _ =>
          let current_path := current_path ++ backslash ++ part in
          _ ← call_makedirs current_path;
          create_levels current_path parts'
      end
  end.

Definition _create_directories_incrementally (remote_dir : pystr)
  : M unit :=
  let parts := split 92 (replace 47 92 remote_dir) in
  if bool_decide (4 < length parts)%nat then
    let current_path :=
      backslash ++ backslash ++ default [] (parts !! 2%nat)
      ++ backslash ++ default [] (parts !! 3%nat) in
    create_levels current_path (drop 4 parts)
  else mret tt.

(** The test of the [except OSError] clause. *)
Definition wants_fallback (e : pystr) : bool :=
  contains (lit "No such file") e || contains (lit "0xc000003a") e.

Definition _ensure_directory_exists (remote_dir : pystr) : M unit :=
  o ← call_makedirs remote_dir;
  match o with
  | Return => mret tt
  | Raise e =>
      if wants_fallback e
      then _create_directories_incrementally remote_dir
      else mret tt
  end.

Definition base_remote_path : pystr :=
  backslash ++ backslash ++ host self ++ backslash ++ share self
  ++ backslash ++ base_path self.

Definition _create_base_directory : M unit :=
  _ensure_directory_exists base_remote_path.

Definition _get_parent_directory (remote_path : pystr) : pystr :=
  match rfind 92 remote_path with
  | Some (S last_sep) => take (S last_sep) remote_path
  | _ => remote_path
  end.

Definition _file_exists_on_nas (remote_path : pystr) : M bool :=
  o ← call_stat remote_path;
  match o with
  | Return => mret true
  | Raise _ => mret false
  end.

Definition _write_file_to_nas (local_file : LocalFile)
    (remote_path : pystr) : M result :=
  match local_content local_file with
  | None => mret error
  | Some data =>
      o ← call_open_file_write remote_path data;
      match o with
      | Return => mret uploaded
      | Raise _ => mret error
      end
  end.

Definition remote_path_of (local_file : LocalFile) : pystr :=
  replace 47 92
    (base_remote_path ++ backslash ++ relative_path local_file).

Definition remember_dir (remote_dir : pystr) : M unit :=
  fun r => (tt, {| world := world r; calls := calls r;
                   created_dirs := {[remote_dir]} ∪ created_dirs r |}).

Definition is_created (remote_dir : pystr) : M bool :=
  fun r => (bool_decide (remote_dir ∈ created_dirs r), r).

Definition _upload_single_file (overwrite : bool)
    (local_file : LocalFile) : M result :=
  let remote_path := remote_path_of local_file in
  let remote_dir := _get_parent_directory remote_path in
  known ← is_created remote_dir;
  _ ← (if (known : bool) then mret tt
       else _ ← _ensure_directory_exists remote_dir;
            remember_dir remote_dir);
  present ← (if overwrite then mret false
             else _file_exists_on_nas remote_path);
  if (present : bool) then mret skipped
  else _write_file_to_nas local_file remote_path.

(** The loop of [_upload_files_with_progress], on the counters
    [(files_uploaded, files_skipped, total_size)]. *)
Fixpoint upload_loop (overwrite : bool) (files : list LocalFile)
    (acc : nat * nat * nat) : M (nat * nat * nat) :=
  match files with
  | [] => mret acc
  | local_file :: files' =>
      let '(files_uploaded, files_skipped, total_size) := acc in
      res ← _upload_single_file overwrite local_file;
      upload_loop overwrite files'
        match res with
        | uploaded =>
            (S files_uploaded, files_skipped,
             (total_size + local_size local_file)%nat)
        | skipped => (files_uploaded, S files_skipped, total_size)
        | error => acc
        end
  end.

Definition _upload_files_with_progress (files_to_upload : list LocalFile)
    (overwrite : bool) : M (nat * nat) :=
  fun r =>
    let fresh := {| world := world r; calls := calls r;
                    created_dirs := ∅ |} in
    let '((files_uploaded, _, total_size), r') :=
      upload_loop overwrite files_to_upload (0, 0, 0)%nat fresh in
    ((files_uploaded, total_size), r').

Definition _execute_upload (files_to_upload : list LocalFile)
    (overwrite : bool) : M (nat * nat) :=
  o ← call_register_session;
  match o with
  | Raise _ => mret (0, 0)%nat
  | Return =>
      _ ← _create_base_directory;
      _upload_files_with_progress files_to_upload overwrite
  end.

(** [_collect_files]: the files are the enumeration of the local tree,
    given with the run. *)
Definition _collect_files (files : list LocalFile)
  : list LocalFile * nat :=
  (files, foldr (fun f n => (local_size f + n)%nat) 0%nat files).

Definition _show_upload_dry_run (files_to_upload : list LocalFile)
    (total_size : nat) : nat * nat :=
  (length files_to_upload, total_size).

(** [installed] tells whether importing [smbclient] succeeds. *)
Definition upload_directory (installed : bool) (files : list LocalFile)
    (dry_run overwrite : bool) : M (nat * nat) :=
  if negb installed then mret (0, 0)%nat
  else
    let '(files_to_upload, total_size) := _collect_files files in
    if dry_run then mret (_show_upload_dry_run files_to_upload total_size)
    else _execute_upload files_to_upload overwrite.

End Engine.

End Uploader.

(* ===================================================================== *)
(** * The sanitiser *)
(* ===================================================================== *)

Module NamePolicy.

(** The characters the specification lists as invalid in a path segment:
    the control characters below code point 32, the colon, the slash,
    the backslash, the double quote (code point 34) and the two angle
    brackets. *)
Definition invalid_char (c : N) : bool :=
  (c <? 32) || existsb (N.eqb c) (lit ":/\" ++ [34] ++ lit "<>").

(** Modelled from the spec: [sanitize] is [pathvalidate.sanitize_filename],
    a dependency whose code is not part of the repository.  Section 4.1 of
    the specification: it removes the characters invalid in filesystem or
    SMB path segments (colon, slash, backslash, quote, angle brackets,
    control characters including NUL, CR, LF and TAB) and preserves every
    other code point unchanged. *)
Fixpoint sanitize (raw : pystr) : pystr :=
  match raw with
  | [] => []
  | c :: raw' =>
      if invalid_char c then sanitize raw' else c :: sanitize raw'
  end.

End NamePolicy.

(* ===================================================================== *)
(** * More string methods *)
(* ===================================================================== *)

Module PyStrMore.

(** [s.lstrip(chars)], [s.rstrip(chars)] and [s.strip(chars)]: the
    characters of [chars] are removed from the ends. *)
Fixpoint lstrip_chars (chars s : pystr) : pystr :=
  match s with
  | c :: s' => if existsb (N.eqb c) chars then lstrip_chars chars s' else s
  | [] => []
  end.

Definition rstrip_chars (chars s : pystr) : pystr :=
  rev (lstrip_chars chars (rev s)).

Definition strip_chars (chars s : pystr) : pystr :=
  rstrip_chars chars (lstrip_chars chars s).

(** [sep.join(pieces)] *)
Fixpoint join (sep : pystr) (pieces : list pystr) : pystr :=
  match pieces with
  | [] => []
  | [piece] => piece
  | piece :: pieces' => piece ++ sep ++ join sep pieces'
  end.

End PyStrMore.

Import PyStrMore.

(* ===================================================================== *)
(** * src/config.py: the configuration of the share, of the mail account
      and of the provider *)
(* ===================================================================== *)

Module ConfigEnv.

(** [os.environ] *)
Abbreviation environ := (gmap pystr pystr).

(** [os.getenv(key)] *)
Definition getenv (env : environ) (key : string) : option pystr :=
  env !! lit key.

(** The truth value of what [os.getenv] returns: a variable that is not
    set, or is set to the empty string, is false. *)
Definition truthy (v : option pystr) : bool :=
  match v with
  | Some (_ :: _) => true
  | _ => false
  end.

Module NASConfig.

Record t := {
  host : pystr;
  share : pystr;
  username : pystr;
  password : pystr;
  base_path : pystr
}.

Definition from_env (env : environ) : option t :=
  let host := getenv env "NAS_HOST" in
  let share := getenv env "NAS_SHARE" in
  let username := getenv env "NAS_USERNAME" in
  let password := getenv env "NAS_PASSWORD" in
  let base_path := default (lit "/mail-archive") (getenv env "NAS_PATH") in
  if negb (truthy host && truthy share && truthy username && truthy password)
  then None
  else Some {| host := default [] host;
               share := default [] share;
               username := default [] username;
               password := default [] password;
               base_path := base_path |}.

Definition get_folder_path (self : t) (mail_account folder_name : pystr)
  : pystr :=
  base_path self ++ lit "/" ++ mail_account ++ lit "/" ++ folder_name.

End NASConfig.

Module MailConfig.

Record t := {
  email : pystr;
  password : pystr;
  provider : pystr
}.

Definition from_env (env : environ) (provider : pystr) : option t :=
  let email_addr := getenv env "MAIL_EMAIL" in
  let password := getenv env "MAIL_PASSWORD" in
  if negb (truthy email_addr) || negb (truthy password) then None
  else Some {| email := default [] email_addr;
               password := default [] password;
               provider := provider |}.

(** [self.email.split("@")[0]] *)
Definition account_name (self : t) : pystr :=
  default [] (head (split 64 (email self))).

End MailConfig.

(** A value of a provider entry. *)
Inductive value :=
| VStr (s : pystr)
| VInt (n : Z)
| VBool (b : bool).

(** The dictionary of one provider, by key. *)
Abbreviation provider_dict := (gmap pystr value).

(** What [yaml.safe_load] gives for a configuration file, through the two
    keys that are read: the entries under [providers], in the order of the
    file and with distinct names, and the entry [default]. *)
Record config_file := {
  providers : option (list (pystr * provider_dict));
  default_provider : option pystr
}.

(** [provider in providers] and [providers[provider]] *)
Fixpoint lookup_provider (provider : pystr)
    (providers : list (pystr * provider_dict)) : option provider_dict :=
  match providers with
  | [] => None
  | (name, d) :: providers' =>
      if bool_decide (name = provider) then Some d
      else lookup_provider provider providers'
  end.

Definition builtin (name host : string) : provider_dict :=
  {[ lit "name" := VStr (lit name);
     lit "imap_host" := VStr (lit host);
     lit "imap_port" := VInt 993;
     lit "ssl" := VBool true ]}.

(** The table [defaults] of [_get_builtin_provider_config]. *)
Definition defaults : list (pystr * provider_dict) :=
  [(lit "gmx", builtin "GMX Mail" "imap.gmx.net");
   (lit "gmail", builtin "Gmail" "imap.gmail.com");
   (lit "outlook", builtin "Outlook" "outlook.office365.com")].

Definition _get_builtin_provider_config (provider : pystr)
  : Config.exn + provider_dict :=
  match lookup_provider provider defaults with
  | Some d => inr d
  | None =>
      inl (Config.ValueError
             (lit "Unknown provider '" ++ provider
              ++ lit "' and no config file found"))
  end.

Section Files.
(** The paths of the configuration files, as lists of components. *)
Variable Path : Type.
(** [CONFIG_PATHS], which depends on where the package and the home
    directory are. *)
Variable CONFIG_PATHS : list Path.
(** [path.exists()] *)
Variable path_exists : Path -> bool.
(** [yaml.safe_load] on the content of a file that exists. *)
Variable safe_load : Path -> config_file.
(** [_apply_custom_provider_env] with the environment of the process: the
    host, the port and the SSL flag of the entry are replaced by the
    variables IMAP_HOST, IMAP_PORT and IMAP_SSL when these are set; the
    conversion of the port raises ValueError on a text that is not a
    number. *)
Variable _apply_custom_provider_env :
  provider_dict -> Config.exn + provider_dict.

Fixpoint _find_config_file (search_paths : list (option Path))
  : option Path :=
  match search_paths with
  | [] => None
  | path :: search_paths' =>
      match path with
      | Some p =>
          if path_exists p then Some p else _find_config_file search_paths'
      | None => _find_config_file search_paths'
      end
  end.

Definition _load_provider_from_file (config_file : Path) (provider : pystr)
  : Config.exn + provider_dict :=
  let config := safe_load config_file in
  let providers := default [] (providers config) in
  match lookup_provider provider providers with
  | None =>
      let available := join (lit ", ") (fst <$> providers) in
      inl (Config.ValueError
             (lit "Unknown provider '" ++ provider ++ lit "'. Available: "
              ++ available))
  | Some provider_config =>
      if bool_decide (provider = lit "custom")
      then _apply_custom_provider_env provider_config
      else inr provider_config
  end.

(** [[config_path] if config_path else CONFIG_PATHS] *)
Definition search_paths_of (config_path : option Path) : list (option Path) :=
  match config_path with
  | Some p => [Some p]
  | None => Some <$> CONFIG_PATHS
  end.

Definition load_provider_config (provider : pystr)
    (config_path : option Path) : Config.exn + provider_dict :=
  let search_paths := search_paths_of config_path in
  match _find_config_file search_paths with
  | None => _get_builtin_provider_config provider
  | Some config_file => _load_provider_from_file config_file provider
  end.

Definition get_default_provider (config_path : option Path) : pystr :=
  let search_paths := search_paths_of config_path in
  match _find_config_file search_paths with
  | Some path => default (lit "gmx") (default_provider (safe_load path))
  | None => lit "gmx"
  end.

End Files.

End ConfigEnv.

(* ===================================================================== *)
(** * src/utils.py: deleting a directory *)
(* ===================================================================== *)

Module UtilsFs.
Import Archiver.

(** [shutil.rmtree(path)] on a directory: the directory goes, with all that
    is under it. *)
Definition rmtree (path : Path) (fs : filesystem) : filesystem :=
  filter (fun entry => ~ path `prefix_of` entry.1) fs.

(** [delete_directory]: on an entry that is a file [shutil.rmtree] raises
    NotADirectoryError, an OSError, which is caught. *)
Definition delete_directory (path : Path) (fs : filesystem)
  : bool * filesystem :=
  match fs !! path with
  | Some Dir => (true, rmtree path fs)
  | Some (File _) => (false, fs)
  | None => (false, fs)
  end.

End UtilsFs.

(* ===================================================================== *)
(** * src/uploader.py: the constructor, and the files of a directory *)
(* ===================================================================== *)

Module UploaderInit.
Import Archiver Uploader.

(** The normalisation of the base path in [NASUploader.__init__]:
    [strip("/").replace("/", "\\").rstrip("\\")]. *)
Definition normalize_base_path (base_path : pystr) : pystr :=
  rstrip_chars backslash (replace 47 92 (strip_chars (lit "/") base_path)).

(** [NASUploader(config)] *)
Definition init (config : ConfigEnv.NASConfig.t) : NASUploader :=
  {| host := ConfigEnv.NASConfig.host config;
     share := ConfigEnv.NASConfig.share config;
     username := ConfigEnv.NASConfig.username config;
     password := ConfigEnv.NASConfig.password config;
     base_path := normalize_base_path (ConfigEnv.NASConfig.base_path config) |}.

(** One file of [local_path.rglob("*")], when the entry is a regular file
    below [local_path]. *)
Definition local_file_of (local_path : Path) (entry : Path * node)
  : option LocalFile :=
  match entry.2 with
  | File content =>
      if bool_decide (local_path `prefix_of` entry.1
                      /\ entry.1 <> local_path)
      then Some {| relative_path :=
                     join (lit "/") (drop (length local_path) entry.1);
                   local_size := length content;
                   local_content := Some content |}
      else None
  | Dir => None
  end.

(** The files [_collect_files] finds under [local_path], in the order the
    storage enumerates them. *)
Definition files_under (local_path : Path) (fs : filesystem)
  : list LocalFile :=
  omap (local_file_of local_path) (map_to_list fs).

End UploaderInit.

(* ===================================================================== *)
(** * src/cli.py: upload and clean after a download *)
(* ===================================================================== *)

Module Cli.
Import Archiver.

Record DownloadOptions := {
  folder : option pystr;
  output : pystr;
  since : option pystr;
  overwrite : bool;
  clean : bool;
  delete_local : bool
}.

(** The fields of [CLIArgs] that the handlers below read. *)
Record CLIArgs := {
  download : DownloadOptions;
  nas : bool;
  dry_run : bool
}.

Record UploadContext := {
  nas_config : ConfigEnv.NASConfig.t;
  mail_config : ConfigEnv.MailConfig.t;
  folder_name : pystr;
  local_folder : Path;
  emails_count : nat
}.

Section Handlers.
(** The interpreter's digit table, for [parse_time_range]. *)
Variable db : Config.UnicodeDB.
Variable datetime : Type.
Variable strftime_before : datetime -> pystr.
(** [datetime.now()] *)
Variable now : datetime.
(** [now - delta]; [None] is the OverflowError of a date out of range. *)
Variable minus : datetime -> Config.timedelta -> option datetime.
(** [archiver.client] *)
Variable client : option (IMAPClient datetime).
Variable confirm : pystr -> bool.
(** [pathvalidate.sanitize_filename] *)
Variable sanitize_filename : pystr -> pystr.

(** [handle_clean_operation]: the events sent to the server, or the
    exception that leaves the handler; a ValueError of the parser is caught
    and ends the handler. *)
Definition handle_clean_operation (args : CLIArgs) (folder_name : pystr)
    (emails_count : nat) : Config.exn + list event :=
  let run (since_date : option datetime) : Config.exn + list event :=
    if dry_run args then
      inr (delete_folder_contents datetime strftime_before client confirm
             folder_name true since_date).2
    else if (0 <? emails_count)%nat then
      inr (delete_folder_contents datetime strftime_before client confirm
             folder_name false since_date).2
    else inr [] in
  match since (download args) with
  | Some ((_ :: _) as expr) =>
      match Config.parse_time_range db expr with
      | inl (Config.ValueError _) => inr []
      | inl Config.OverflowError => inl Config.OverflowError
      | inr delta =>
          match minus now delta with
          | Some since_date => run (Some since_date)
          | None => inl Config.OverflowError
          end
      end
  | _ => run None
  end.

Context {W : Type}.
Variable smbclient : Uploader.SMBClient W.
(** Whether importing [smbclient] succeeds. *)
Variable installed : bool.

(** [handle_nas_upload], on the state of the share and the local
    storage. *)
Definition handle_nas_upload (args : CLIArgs) (context : UploadContext)
    (state : @Uploader.run W * filesystem)
  : bool * (@Uploader.run W * filesystem) :=
  let '(r, fs) := state in
  if dry_run args then (true, state)
  else if (emails_count context =? 0)%nat then (false, state)
  else
    let folder_safe_name := sanitize_filename (folder_name context) in
    let nas_folder_path :=
      ConfigEnv.NASConfig.get_folder_path (nas_config context)
        (ConfigEnv.MailConfig.account_name (mail_config context))
        folder_safe_name in
    let upload_config :=
      {| ConfigEnv.NASConfig.host :=
           ConfigEnv.NASConfig.host (nas_config context);
         ConfigEnv.NASConfig.share :=
           ConfigEnv.NASConfig.share (nas_config context);
         ConfigEnv.NASConfig.username :=
           ConfigEnv.NASConfig.username (nas_config context);
         ConfigEnv.NASConfig.password :=
           ConfigEnv.NASConfig.password (nas_config context);
         ConfigEnv.NASConfig.base_path := nas_folder_path |} in
    let uploader := UploaderInit.init upload_config in
    let '((files_uploaded, _), r') :=
      Uploader.upload_directory smbclient uploader installed
        (UploaderInit.files_under (local_folder context) fs)
        (dry_run args) (overwrite (download args)) r in
    let upload_success := (0 <? files_uploaded)%nat in
    let fs' :=
      if upload_success && delete_local (download args)
      then (UtilsFs.delete_directory (local_folder context) fs).2
      else fs in
    (upload_success, (r', fs')).

End Handlers.

End Cli.

(* ===================================================================== *)
(** * Properties of the string methods *)
(* ===================================================================== *)

Module PyStrFacts.

Lemma lstrip_spaces ws t :
  forallb isspace ws = true -> lstrip (ws ++ t) = lstrip t.
Proof.
  induction ws as [|c ws IH]; simpl; [done|].
  intros [Hc Hws]%andb_prop. rewrite Hc. auto.
Qed.

Lemma lstrip_head c t : isspace c = false -> lstrip (c :: t) = c :: t.
Proof. simpl. by intros ->. Qed.

Lemma lstrip_split s :
  exists ws, s = ws ++ lstrip s /\ forallb isspace ws = true.
Proof.
  induction s as [|c s [ws [E H]]]; simpl.
  - by exists [].
  - destruct (isspace c) eqn:Hc.
    + exists (c :: ws). simpl. rewrite Hc, H. split; [congruence|done].
    + by exists [].
Qed.

Lemma forallb_rev {A} (f : A -> bool) l : forallb f (rev l) = forallb f l.
Proof.
  induction l as [|a l IH]; simpl; [done|].
  rewrite forallb_app, IH. simpl. rewrite andb_true_r. apply andb_comm.
Qed.

Lemma rstrip_spaces t ws :
  forallb isspace ws = true -> rstrip (t ++ ws) = rstrip t.
Proof.
  intros H. unfold rstrip. rewrite rev_app_distr, lstrip_spaces; [done|].
  by rewrite forallb_rev.
Qed.

Lemma rstrip_last t c : isspace c = false -> rstrip (t ++ [c]) = t ++ [c].
Proof.
  intros H. unfold rstrip. rewrite rev_app_distr. simpl. rewrite H.
  simpl. by rewrite rev_involutive.
Qed.

Lemma rstrip_split s :
  exists ws, s = rstrip s ++ ws /\ forallb isspace ws = true.
Proof.
  destruct (lstrip_split (rev s)) as [ws [E H]].
  exists (rev ws). unfold rstrip. split.
  - rewrite <- rev_app_distr, <- E. by rewrite rev_involutive.
  - by rewrite forallb_rev.
Qed.

(** Stripping undoes a frame of whitespace around a text that neither
    starts nor ends with whitespace. *)
Lemma strip_frame ws1 c mid d ws2 :
  forallb isspace ws1 = true -> forallb isspace ws2 = true ->
  isspace c = false -> isspace d = false ->
  strip (ws1 ++ (c :: mid ++ [d]) ++ ws2) = c :: mid ++ [d].
Proof.
  intros H1 H2 Hc Hd. unfold strip.
  rewrite lstrip_spaces by done. simpl. rewrite Hc.
  change (c :: (mid ++ [d]) ++ ws2) with ((c :: mid ++ [d]) ++ ws2).
  rewrite rstrip_spaces by done.
  change (c :: mid ++ [d]) with ((c :: mid) ++ [d]).
  by apply rstrip_last.
Qed.

(** Every string is its stripped text inside a frame of whitespace. *)
Lemma strip_split s :
  exists ws1 ws2, s = ws1 ++ strip s ++ ws2
    /\ forallb isspace ws1 = true /\ forallb isspace ws2 = true.
Proof.
  destruct (lstrip_split s) as [ws1 [E1 H1]].
  destruct (rstrip_split (lstrip s)) as [ws2 [E2 H2]].
  exists ws1, ws2. unfold strip. by rewrite <- E2, <- E1.
Qed.

Lemma startswith_app p s : startswith p (p ++ s) = true.
Proof. induction p as [|a p IH]; simpl; [done|]. by rewrite N.eqb_refl. Qed.

Lemma startswith_prefix p s :
  startswith p s = true -> exists t, s = p ++ t.
Proof.
  revert s. induction p as [|a p IH]; intros s; simpl.
  - by exists s.
  - destruct s as [|b s]; [done|].
    intros [Hab Hp]%andb_prop. apply N.eqb_eq in Hab as ->.
    destruct (IH _ Hp) as [t ->]. by exists t.
Qed.

Lemma contains_startswith needle hay :
  startswith needle hay = true -> contains needle hay = true.
Proof. intros H. destruct hay; simpl; by rewrite H. Qed.

(** [needle in hay] holds exactly when [needle] is an infix of [hay]. *)
Lemma contains_infix needle hay :
  contains needle hay = true <-> exists a b, hay = a ++ needle ++ b.
Proof.
  split.
  - induction hay as [|c hay IH]; simpl.
    + rewrite orb_false_r. intros [t E]%startswith_prefix. by exists [], t.
    + intros [H|H]%orb_prop.
      * apply startswith_prefix in H as [t E]. by exists [], t.
      * destruct (IH H) as (a & b & ->). by exists (c :: a), b.
  - intros (a & b & ->). induction a as [|c a IH].
    + rewrite app_nil_l. apply contains_startswith, startswith_app.
    + simpl. simpl in IH. rewrite IH. apply orb_true_r.
Qed.

End PyStrFacts.

(* ===================================================================== *)
(** * Properties of the retention parser *)
(* ===================================================================== *)

Module ConfigFacts.
Import Config PyStrFacts.

(** ** The grammar, in the words of the specification *)

(** The days one unit letter stands for. *)
Definition unit_days (u : N) : option N :=
  if (u =? 68) || (u =? 100) then Some 1        (* D d *)
  else if (u =? 87) || (u =? 119) then Some 7   (* W w *)
  else if (u =? 77) || (u =? 109) then Some 30  (* M m *)
  else if (u =? 89) || (u =? 121) then Some 365 (* Y y *)
  else None.

(** [accepted_shape db s ds k]: [s] is optional whitespace, the one or
    more decimal digits [ds], one unit letter worth [k] days, and optional
    whitespace.  The number the expression names is
    [decimal_value db ds]. *)
Definition accepted_shape (db : UnicodeDB) (s ds : pystr) (k : N) : Prop :=
  exists ws1 u ws2,
    s = ws1 ++ ds ++ [u] ++ ws2
    /\ forallb isspace ws1 = true /\ forallb isspace ws2 = true
    /\ ds <> [] /\ forallb (is_digit db) ds = true
    /\ unit_days u = Some k.

(** The database restricted to ASCII, the smallest a [UnicodeDB] can be. *)
Definition ascii_Nd (c : N) : option N :=
  if (48 <=? c) && (c <=? 57) then Some (c - 48) else None.

Ltac case_compare :=
  repeat match goal with
         | |- context [?a <=? ?b] =>
             let E := fresh in destruct (N.leb_spec a b) as [E|E]; try lia
         | |- context [?a <? ?b] =>
             let E := fresh in destruct (N.ltb_spec a b) as [E|E]; try lia
         | |- context [?a =? ?b] =>
             let E := fresh in destruct (N.eqb_spec a b) as [E|E]; try lia
         end.

Lemma ascii_Nd_not_space c v : ascii_Nd c = Some v -> isspace c = false.
Proof.
  unfold ascii_Nd, isspace. intros H.
  destruct (48 <=? c) eqn:E1; [|discriminate].
  destruct (c <=? 57) eqn:E2; [|discriminate].
  apply N.leb_le in E1, E2. case_compare; reflexivity.
Qed.

Definition ascii_db : UnicodeDB :=
  {| Nd_value := ascii_Nd;
     Nd_ascii := fun c _ => eq_refl;
     Nd_not_space := ascii_Nd_not_space |}.

Section Facts.
Variable db : UnicodeDB.

Lemma is_digit_not_space c : is_digit db c = true -> isspace c = false.
Proof.
  unfold is_digit. destruct (Nd_value db c) eqn:E; [|done].
  intros _. eapply Nd_not_space, E.
Qed.

(** The unit letters, one by one. *)
Lemma is_unit_cases u :
  is_unit u = true ->
  u = 68 \/ u = 100 \/ u = 77 \/ u = 109 \/ u = 89 \/ u = 121
  \/ u = 87 \/ u = 119.
Proof.
  unfold is_unit. simpl. rewrite orb_false_r.
  repeat (intros [H|H]%orb_prop; [apply N.eqb_eq in H; tauto|revert H]).
  intros H%N.eqb_eq. tauto.
Qed.

Lemma unit_days_is_unit u k : unit_days u = Some k -> is_unit u = true.
Proof.
  unfold unit_days, is_unit. simpl.
  case_compare; subst; simpl; try done.
Qed.

Lemma is_unit_not_digit u : is_unit u = true -> is_digit db u = false.
Proof.
  intros H. unfold is_digit.
  rewrite Nd_ascii by (apply is_unit_cases in H; lia).
  apply is_unit_cases in H.
  destruct H as [->|[->|[->|[->|[->|[->|[->| ->]]]]]]]; reflexivity.
Qed.

Lemma is_unit_not_space u : is_unit u = true -> isspace u = false.
Proof.
  intros H. apply is_unit_cases in H.
  destruct H as [->|[->|[->|[->|[->|[->|[->| ->]]]]]]]; reflexivity.
Qed.

(** [span_digits] cuts a run of digits from a rest that starts with
    something else. *)
Lemma span_digits_app ds rest :
  forallb (is_digit db) ds = true ->
  match rest with [] => True | c :: _ => is_digit db c = false end ->
  span_digits db (ds ++ rest) = (ds, rest).
Proof.
  intros Hds Hrest. induction ds as [|d ds IH]; simpl.
  - destruct rest as [|c rest]; simpl; [done|]. by rewrite Hrest.
  - simpl in Hds. apply andb_prop in Hds as [Hd Hds].
    rewrite Hd, IH; done.
Qed.

Lemma span_digits_split s ds rest :
  span_digits db s = (ds, rest) ->
  s = ds ++ rest /\ forallb (is_digit db) ds = true.
Proof.
  revert ds rest. induction s as [|c s IH]; simpl; intros ds rest.
  - by intros [= <- <-].
  - destruct (is_digit db c) eqn:Hc.
    + destruct (span_digits db s) as [ds' rest'].
      intros [= <- <-]. destruct (IH _ _ eq_refl) as [-> H].
      simpl. by rewrite Hc, H.
    + by intros [= <- <-].
Qed.

(** What a match of the pattern means for the text. *)
Lemma re_match_Some s ds u :
  re_match db s = Some (ds, u) ->
  ds <> [] /\ forallb (is_digit db) ds = true /\ is_unit u = true
  /\ (s = ds ++ [u] \/ s = ds ++ [u; 10]).
Proof.
  unfold re_match.
  destruct (span_digits db s) as [ds' rest] eqn:E.
  apply span_digits_split in E as [-> Hds].
  destruct ds' as [|d ds']; [by destruct rest as [|? [|? [|]]]|].
  destruct rest as [|u' [|nl [|]]]; try done.
  - destruct (is_unit u') eqn:Hu; [|done].
    intros [= <- <-]. auto.
  - destruct (is_unit u') eqn:Hu; [|done].
    destruct (N.eqb_spec nl 10) as [->|]; [|done].
    intros [= <- <-]. auto.
Qed.

Lemma re_match_shape ds u :
  ds <> [] -> forallb (is_digit db) ds = true -> is_unit u = true ->
  re_match db (ds ++ [u]) = Some (ds, u).
Proof.
  intros Hne Hds Hu. unfold re_match.
  rewrite span_digits_app; [|done|by apply is_unit_not_digit].
  destruct ds; [done|]. by rewrite Hu.
Qed.

(** The text between the whitespace, for a string of the shape. *)
Lemma strip_shape ws1 ds u ws2 :
  forallb isspace ws1 = true -> forallb isspace ws2 = true ->
  ds <> [] -> forallb (is_digit db) ds = true -> is_unit u = true ->
  strip (ws1 ++ ds ++ [u] ++ ws2) = ds ++ [u].
Proof.
  intros H1 H2 Hne Hds Hu. destruct ds as [|d ds]; [done|].
  simpl in Hds. apply andb_prop in Hds as [Hd Hds].
  replace (ws1 ++ (d :: ds) ++ [u] ++ ws2)
    with (ws1 ++ (d :: ds ++ [u]) ++ ws2)
    by (simpl; by rewrite <- !app_assoc).
  apply strip_frame; auto using is_digit_not_space, is_unit_not_space.
Qed.

(** The branch the parser takes on a unit letter. *)
Lemma dispatch_unit u k v :
  unit_days u = Some k ->
  (if upper u =? 68 then mk_timedelta v 0
   else if upper u =? 87 then mk_timedelta 0 v
   else if upper u =? 77 then mk_timedelta (v * 30) 0
   else if upper u =? 89 then mk_timedelta (v * 365) 0
   else inl (ValueError (unknown_unit_msg (upper u))))
  = if v * k <=? timedelta_max_days then inr (Timedelta (v * k))
    else inl OverflowError.
Proof.
  intros Hk. pose proof (unit_days_is_unit _ _ Hk) as Hu.
  apply is_unit_cases in Hu.
  destruct Hu as [->|[->|[->|[->|[->|[->|[->| ->]]]]]]];
    cbv in Hk; injection Hk as <-;
    unfold upper; simpl; unfold mk_timedelta;
    rewrite ?N.mul_1_r, ?N.add_0_r, ?N.add_0_l, ?(N.mul_comm 7 v); done.
Qed.

Lemma shape_parses s ds k :
  accepted_shape db s ds k ->
  parse_time_range db s
  = if int_max_str_digits <? N.of_nat (length ds)
    then inl (ValueError (int_limit_msg (length ds)))
    else if decimal_value db ds * k <=? timedelta_max_days
         then inr (Timedelta (decimal_value db ds * k))
         else inl OverflowError.
Proof.
  intros (ws1 & u & ws2 & -> & H1 & H2 & Hne & Hds & Hk).
  pose proof (unit_days_is_unit _ _ Hk) as Hu.
  unfold parse_time_range.
  rewrite strip_shape, re_match_shape by done.
  unfold int_of_digits. destruct (_ <? _); [done|].
  by apply dispatch_unit.
Qed.

Lemma is_unit_days u : is_unit u = true -> exists k, unit_days u = Some k.
Proof.
  intros H. apply is_unit_cases in H.
  destruct H as [->|[->|[->|[->|[->|[->|[->| ->]]]]]]]; cbv; eauto.
Qed.

(** A match of the pattern on the stripped text gives the shape. *)
Lemma match_gives_shape s ds u :
  re_match db (strip s) = Some (ds, u) ->
  exists k, accepted_shape db s ds k.
Proof.
  intros (Hne & Hds & Hu & Hs)%re_match_Some.
  destruct (is_unit_days _ Hu) as [k Hk]. exists k.
  destruct (strip_split s) as (ws1 & ws2 & E & H1 & H2).
  destruct Hs as [Hs|Hs]; rewrite Hs in E.
  - exists ws1, u, ws2. rewrite E.
    repeat split; try done. by rewrite <- !app_assoc.
  - exists ws1, u, (10 :: ws2). rewrite E.
    repeat split; try done. by rewrite <- !app_assoc.
Qed.

Lemma no_shape_no_match s :
  (~ exists ds k, accepted_shape db s ds k) ->
  re_match db (strip s) = None.
Proof.
  intros Hno. destruct (re_match db (strip s)) as [[ds u]|] eqn:E; [|done].
  destruct Hno. destruct (match_gives_shape _ _ _ E) as [k Hk]. eauto.
Qed.

(** The message of the error at the pattern check quotes the input and
    goes on to name the four unit letters. *)
Lemma invalid_format_msg_names s :
  exists pre post,
    invalid_format_msg s = pre ++ s ++ post
    /\ Forall (fun u => u ∈ post) (lit "DWMY").
Proof.
  exists (lit "Invalid time range format: '"),
    (lit "'. "
     ++ lit "Use formats like: 30D (days), 6M (months), 1Y (years), 2W (weeks)").
  split; [reflexivity|].
  apply (bool_decide_unpack _). by vm_compute.
Qed.

Lemma mk_timedelta_cases d w :
  (exists td, mk_timedelta d w = inr td)
  \/ mk_timedelta d w = inl OverflowError.
Proof.
  unfold mk_timedelta. destruct (_ <=? _); eauto.
Qed.

(** The errors of the conversion and of the pattern check differ from
    each other and from the error of the last branch. *)
Lemma int_limit_msg_other digits s unit :
  int_limit_msg digits <> invalid_format_msg s
  /\ int_limit_msg digits <> unknown_unit_msg unit.
Proof. split; intros E; by apply (f_equal head) in E. Qed.

(** What the conversion of the digit group gives. *)
Lemma int_of_digits_cases ds :
  (int_of_digits db ds = inr (decimal_value db ds)
   /\ N.of_nat (length ds) <= int_max_str_digits)
  \/ (int_of_digits db ds = inl (ValueError (int_limit_msg (length ds)))
      /\ int_max_str_digits < N.of_nat (length ds)).
Proof.
  unfold int_of_digits.
  destruct (N.ltb_spec int_max_str_digits (N.of_nat (length ds)));
    [right|left]; done.
Qed.

(** The four tests on the unit, for a letter of the class. *)
Lemma upper_unit_cases u :
  is_unit u = true ->
  upper u = 68 \/ upper u = 87 \/ upper u = 77 \/ upper u = 89.
Proof.
  intros H. apply is_unit_cases in H.
  destruct H as [->|[->|[->|[->|[->|[->|[->| ->]]]]]]]; cbv; tauto.
Qed.

End Facts.

(** ** The claims *)

(** C3, as stated, fails: ["1000000000D"] has the accepted shape, with
    digits that read n = 1000000000 and the unit D, and the parser does not
    return a duration of n days.  The range of [timedelta] ends at
    999999999 days, and the constructor raises OverflowError. *)
Lemma parse_time_range_large_days_cex :
  accepted_shape ascii_db (lit "1000000000D") (lit "1000000000") 1
  /\ decimal_value ascii_db (lit "1000000000") = 1000000000
  /\ parse_time_range ascii_db (lit "1000000000D")
     <> inr (Timedelta (1000000000 * 1))
  /\ parse_time_range ascii_db (lit "1000000000D") = inl OverflowError.
Proof.
  split; [|split; [by vm_compute|split; [by vm_compute|by vm_compute]]].
  exists [], 68, [].
  repeat split; by vm_compute.
Qed.

(** C3, amended: for every input string, the parser accepts exactly the
    shape "optional whitespace, one or more decimal digits, one unit letter
    among D/W/M/Y in either case, optional whitespace".  On such an input
    whose digits read n, with a unit worth k days (1, 7, 30, 365), and
    which has at most 4300 digits, it returns the duration of n*k days when
    n*k is at most 999999999, the largest [timedelta], and raises
    OverflowError when it is larger; with more than 4300 digits the
    conversion of the digits raises a ValueError of its own, which is not
    the invalid-format error.  Every other input fails with the
    invalid-format ValueError, whose message quotes the input and lists the
    unit letters. *)
Theorem parse_time_range_accepts_shape (db : UnicodeDB) (s : pystr) :
  (forall ds k, accepted_shape db s ds k ->
     parse_time_range db s
     = if int_max_str_digits <? N.of_nat (length ds)
       then inl (ValueError (int_limit_msg (length ds)))
       else if decimal_value db ds * k <=? timedelta_max_days
            then inr (Timedelta (decimal_value db ds * k))
            else inl OverflowError)
  /\ (forall digits, int_limit_msg digits <> invalid_format_msg s)
  /\ ((~ exists ds k, accepted_shape db s ds k) ->
      parse_time_range db s = inl (ValueError (invalid_format_msg s))
      /\ exists pre post,
           invalid_format_msg s = pre ++ s ++ post
           /\ Forall (fun u => u ∈ post) (lit "DWMY")).
Proof.
  split; [|split].
  - intros ds k. apply shape_parses.
  - intros digits. apply (int_limit_msg_other digits s 0).
  - intros Hno. split; [|apply invalid_format_msg_names].
    unfold parse_time_range. by rewrite no_shape_no_match.
Qed.

Lemma no_shape_30X : ~ exists ds k, accepted_shape ascii_db (lit "30X") ds k.
Proof.
  intros (ds & k & H). apply shape_parses in H. revert H.
  destruct (_ <? _); [by vm_compute|].
  destruct (_ <=? _); by vm_compute.
Qed.

(** An expression of 4301 digits. *)
Definition long_expression : pystr := repeat 48 4301 ++ lit "D".

Lemma parse_time_range_accepts_shape_witness :
  parse_time_range ascii_db (lit " 2w") = inr (Timedelta 14)
  /\ parse_time_range ascii_db long_expression
     = inl (ValueError (int_limit_msg 4301))
  /\ parse_time_range ascii_db (lit "30X")
     = inl (ValueError (invalid_format_msg (lit "30X"))).
Proof.
  split; [|split].
  - rewrite (proj1 (parse_time_range_accepts_shape ascii_db (lit " 2w"))
               (lit "2") 7).
    + by vm_compute.
    + exists (lit " "), 119, []. repeat split; by vm_compute.
  - rewrite (proj1 (parse_time_range_accepts_shape ascii_db
                      long_expression) (repeat 48 4301) 1).
    + by vm_compute.
    + exists [], 68, []. repeat split; by vm_compute.
  - apply (proj2 (proj2 (parse_time_range_accepts_shape ascii_db
                           (lit "30X")))).
    exact no_shape_30X.
Defined.

(** The examples of the specification. *)
Example parse_examples :
  parse_time_range ascii_db (lit "30D") = inr (Timedelta 30)
  /\ parse_time_range ascii_db (lit "2W") = inr (Timedelta 14)
  /\ parse_time_range ascii_db (lit "6M") = inr (Timedelta 180)
  /\ parse_time_range ascii_db (lit "1Y") = inr (Timedelta 365)
  /\ Forall (fun s => parse_time_range ascii_db s
                      = inl (ValueError (invalid_format_msg s)))
            [lit "30"; lit "D"; lit "30X"; lit ""].
Proof.
  do 4 (split; [by vm_compute|]).
  do 4 (apply List.Forall_cons; [by vm_compute|]). apply List.Forall_nil.
Qed.

(** C9, as stated, fails: on ["200000000W"] the parser neither returns
    nor raises the invalid-format error; the W branch is entered and the
    [timedelta] constructor raises OverflowError there. *)
Lemma parse_time_range_weeks_overflow_cex :
  (forall td, parse_time_range ascii_db (lit "200000000W") <> inr td)
  /\ parse_time_range ascii_db (lit "200000000W")
     <> inl (ValueError (invalid_format_msg (lit "200000000W")))
  /\ re_match ascii_db (strip (lit "200000000W"))
     = Some (lit "200000000", 87).
Proof. repeat split; try intros td; by vm_compute. Qed.

(** C9, amended: for every input string, the parser raises the
    invalid-format error at the pattern check, or the pattern matches.
    On a match with more than 4300 digits the conversion of the digits
    raises its own ValueError before any unit branch.  Otherwise the parser
    enters one of the four unit branches D, W, M, Y, where it returns the
    duration or, for more than 999999999 days, the [timedelta] constructor
    raises OverflowError.  The final "Unknown time unit" error is never
    raised, because the pattern admits only the letters D, W, M, Y, in
    either case, as unit. *)
Theorem unknown_unit_branch_unreachable (db : UnicodeDB) (s : pystr) :
  (forall unit,
     parse_time_range db s <> inl (ValueError (unknown_unit_msg unit)))
  /\ match re_match db (strip s) with
     | None =>
         parse_time_range db s = inl (ValueError (invalid_format_msg s))
     | Some (digits, letter) =>
         match int_of_digits db digits with
         | inl e =>
             int_max_str_digits < N.of_nat (length digits)
             /\ e = ValueError (int_limit_msg (length digits))
             /\ parse_time_range db s = inl e
         | inr value =>
             N.of_nat (length digits) <= int_max_str_digits
             /\ value = decimal_value db digits
             /\ ((upper letter = 68
                  /\ parse_time_range db s = mk_timedelta value 0)
                 \/ (upper letter = 87
                     /\ parse_time_range db s = mk_timedelta 0 value)
                 \/ (upper letter = 77
                     /\ parse_time_range db s
                        = mk_timedelta (value * 30) 0)
                 \/ (upper letter = 89
                     /\ parse_time_range db s
                        = mk_timedelta (value * 365) 0))
         end
     end
  /\ ((exists td, parse_time_range db s = inr td)
      \/ parse_time_range db s = inl (ValueError (invalid_format_msg s))
      \/ parse_time_range db s = inl OverflowError
      \/ exists digits,
           int_max_str_digits < N.of_nat digits
           /\ parse_time_range db s
              = inl (ValueError (int_limit_msg digits))).
Proof.
  assert (Hbranch :
    match re_match db (strip s) with
    | None =>
        parse_time_range db s = inl (ValueError (invalid_format_msg s))
    | Some (digits, letter) =>
        match int_of_digits db digits with
        | inl e =>
            int_max_str_digits < N.of_nat (length digits)
            /\ e = ValueError (int_limit_msg (length digits))
            /\ parse_time_range db s = inl e
        | inr value =>
            N.of_nat (length digits) <= int_max_str_digits
            /\ value = decimal_value db digits
            /\ ((upper letter = 68
                 /\ parse_time_range db s = mk_timedelta value 0)
                \/ (upper letter = 87
                    /\ parse_time_range db s = mk_timedelta 0 value)
                \/ (upper letter = 77
                    /\ parse_time_range db s
                       = mk_timedelta (value * 30) 0)
                \/ (upper letter = 89
                    /\ parse_time_range db s
                       = mk_timedelta (value * 365) 0))
        end
    end).
  { unfold parse_time_range.
    destruct (re_match db (strip s)) as [[ds u]|] eqn:E; [|done].
    apply re_match_Some in E as (_ & _ & Hu & _).
    destruct (int_of_digits_cases db ds) as [[-> Hlen]|[-> Hlen]];
      [|done].
    split; [done|]. split; [done|].
    destruct (upper_unit_cases _ Hu) as [H|[H|[H|H]]]; rewrite H; simpl;
      auto. }
  split; [|split; [exact Hbranch|]].
  - intros unit. destruct (re_match db (strip s)) as [[ds u]|].
    + destruct (int_of_digits db ds) as [e|value].
      * destruct Hbranch as (_ & -> & ->). intros E.
        apply (int_limit_msg_other (length ds) s unit). congruence.
      * destruct Hbranch as (_ & _ & [[_ ->]|[[_ ->]|[[_ ->]|[_ ->]]]]);
          match goal with
          | |- mk_timedelta ?d ?w <> _ =>
              destruct (mk_timedelta_cases d w) as [[td ->]| ->]; done
          end.
    + rewrite Hbranch. unfold invalid_format_msg, unknown_unit_msg.
      simpl. intros [=].
  - destruct (re_match db (strip s)) as [[ds u]|]; [|auto].
    destruct (int_of_digits db ds) as [e|value].
    + destruct Hbranch as (Hlen & -> & ->). right. right. right. eauto.
    + destruct Hbranch as (_ & _ & [[_ ->]|[[_ ->]|[[_ ->]|[_ ->]]]]);
        match goal with
        | |- context [mk_timedelta ?d ?w] =>
            destruct (mk_timedelta_cases d w) as [[td ->]| ->]; eauto
        end.
Qed.

End ConfigFacts.

(* ===================================================================== *)
(** * Properties of the archiver *)
(* ===================================================================== *)

Module ArchiverFacts.
Import Archiver.

(** ** Paths and storage *)

Lemma lit_inj s1 s2 : lit s1 = lit s2 -> s1 = s2.
Proof.
  unfold lit. revert s2.
  induction s1 as [|a s1 IH]; intros [|b s2]; simpl; try done.
  intros [= Hab Hs]. f_equal; [|by apply IH].
  rewrite <- (ascii_N_embedding a), <- (ascii_N_embedding b).
  by rewrite Hab.
Qed.

Lemma str_of_nat_inj n m : str_of_nat n = str_of_nat m -> n = m.
Proof. intros H%lit_inj. by apply (inj pretty). Qed.

(** The name of the [counter]-th candidate for [filename]. *)
Definition candidate_name (filename : pystr) (counter : nat) : pystr :=
  let '(name, ext) := splitext filename in
  name ++ lit "_" ++ str_of_nat counter ++ ext.

Definition candidate (email_dir : Path) (filename : pystr) (counter : nat)
  : Path := email_dir </> candidate_name filename counter.

Lemma candidate_name_inj filename n m :
  candidate_name filename n = candidate_name filename m -> n = m.
Proof.
  unfold candidate_name. destruct (splitext filename) as [name ext].
  intros H. apply app_inv_head in H. simpl in H. injection H as H.
  apply app_inv_tail in H. by apply str_of_nat_inj.
Qed.

Lemma candidate_name_component filename n :
  candidate_name filename n <> [] /\ candidate_name filename n <> lit ".".
Proof.
  unfold candidate_name. destruct (splitext filename) as [name ext].
  split; intros H.
  - by destruct name.
  - by destruct name as [|c [|c' name]].
Qed.

Lemma candidate_snoc email_dir filename n :
  candidate email_dir filename n = email_dir ++ [candidate_name filename n].
Proof.
  unfold candidate, path_join.
  destruct (candidate_name_component filename n) as [H1 H2].
  rewrite bool_decide_eq_false_2; [done|]. tauto.
Qed.

Lemma candidate_inj email_dir filename n m :
  candidate email_dir filename n = candidate email_dir filename m -> n = m.
Proof.
  rewrite !candidate_snoc. intros H%app_inv_head.
  injection H as H. by apply candidate_name_inj in H.
Qed.

Lemma path_exists_true fs p : path_exists fs p = true <-> is_Some (fs !! p).
Proof. unfold path_exists. apply bool_decide_eq_true. Qed.

Lemma path_exists_false fs p : path_exists fs p = false <-> fs !! p = None.
Proof.
  unfold path_exists. rewrite bool_decide_eq_false.
  by rewrite eq_None_not_Some.
Qed.

(** Distinct paths that all exist are no more than the entries. *)
Lemma existing_paths_bound (fs : filesystem) (l : list Path) :
  NoDup l -> (forall p, p ∈ l -> is_Some (fs !! p)) ->
  (length l <= size fs)%nat.
Proof.
  intros Hnd Hin. rewrite <- size_dom.
  change (size (dom fs)) with (length (elements (dom fs))).
  apply submseteq_length, NoDup_submseteq; [done|].
  intros p Hp. apply elem_of_elements, elem_of_dom. auto.
Qed.

(** ** The probing loop *)

Section Probe.
Variables (fs : filesystem) (email_dir : Path) (filename : pystr).

(** One unfolding of the loop. *)
Lemma probe_loop_unfold fuel path counter :
  probe_loop fuel fs email_dir filename path counter
  = if path_exists fs path then
      match fuel with
      | O => None
      | S fuel' =>
          probe_loop fuel' fs email_dir filename
            (candidate email_dir filename counter) (S counter)
      end
    else Some path.
Proof.
  destruct fuel; simpl; [done|].
  unfold candidate, candidate_name.
  by destruct (splitext filename).
Qed.

(** When the turns run out, every path tried so far exists. *)
Lemma probe_loop_None fuel path counter :
  probe_loop fuel fs email_dir filename path counter = None ->
  is_Some (fs !! path)
  /\ forall m, (counter <= m < counter + fuel)%nat ->
       is_Some (fs !! candidate email_dir filename m).
Proof.
  revert path counter. induction fuel as [|fuel IH]; intros path counter;
    rewrite probe_loop_unfold;
    destruct (path_exists fs path) eqn:Hp; try done;
    apply path_exists_true in Hp.
  - intros _. split; [done|]. intros m Hm. lia.
  - intros [Hc Hrest]%IH. split; [done|]. intros m Hm.
    destruct (decide (m = counter)) as [->|Hne]; [done|].
    apply Hrest. lia.
Qed.

(** What the loop returns did not exist; it is the path the loop was
    entered with if that is free, and otherwise the first candidate
    from [counter] on that is. *)
Lemma probe_loop_Some fuel path counter p :
  probe_loop fuel fs email_dir filename path counter = Some p ->
  fs !! p = None
  /\ (p = path
      \/ exists n, (counter <= n)%nat
           /\ is_Some (fs !! path)
           /\ p = candidate email_dir filename n
           /\ forall m, (counter <= m < n)%nat ->
                is_Some (fs !! candidate email_dir filename m)).
Proof.
  revert path counter. induction fuel as [|fuel IH]; intros path counter;
    rewrite probe_loop_unfold;
    destruct (path_exists fs path) eqn:Hp; try done;
    try (intros [= <-]; apply path_exists_false in Hp; by auto).
  apply path_exists_true in Hp.
  intros [Hfree [->|(n & Hn & Hc & -> & Hbelow)]]%IH; (split; [done|]);
    right.
  - exists counter. repeat split; try done. intros m Hm. lia.
  - exists n. repeat split; try done; [lia|]. intros m Hm.
    destruct (decide (m = counter)) as [->|Hne]; [done|].
    apply Hbelow. lia.
Qed.

(** More turns do not change a result. *)
Lemma probe_loop_more fuel fuel' path counter p :
  (fuel <= fuel')%nat ->
  probe_loop fuel fs email_dir filename path counter = Some p ->
  probe_loop fuel' fs email_dir filename path counter = Some p.
Proof.
  revert fuel' path counter.
  induction fuel as [|fuel IH]; intros fuel' path counter Hle H;
    rewrite probe_loop_unfold in H; rewrite probe_loop_unfold;
    destruct (path_exists fs path) eqn:Hp; try done.
  destruct fuel' as [|fuel']; [lia|]. apply IH; [lia|done].
Qed.

(** The loop ends: one turn more than the storage has entries is always
    enough. *)
Lemma probe_loop_returns fuel path counter :
  (size fs < fuel)%nat ->
  is_Some (probe_loop fuel fs email_dir filename path counter).
Proof.
  intros Hfuel.
  destruct (probe_loop fuel fs email_dir filename path counter) eqn:E;
    [done|].
  apply probe_loop_None in E as [_ Hall].
  assert (length (candidate email_dir filename <$> seq counter fuel)
          <= size fs)%nat as Hlen.
  { apply existing_paths_bound.
    - apply NoDup_fmap_2; [|apply NoDup_seq].
      intros n m. apply candidate_inj.
    - intros p (m & -> & Hm%elem_of_seq)%list_elem_of_fmap.
      apply Hall. lia. }
  rewrite length_fmap, length_seq in Hlen. lia.
Qed.

End Probe.

(** ** Collision resolution *)

(** [n] resolutions of the same file name in a row, each followed by the
    creation of the file at the path returned. *)
Fixpoint resolve_successively (n : nat) (fs : filesystem)
    (email_dir : Path) (filename : pystr) (payload : bytes) : list Path :=
  match n with
  | O => []
  | S n' =>
      let p := resolve_collision fs email_dir filename in
      p :: resolve_successively n' (write_file p payload fs)
             email_dir filename payload
  end.

Lemma resolve_collision_probe fs email_dir filename fuel :
  (size fs < fuel)%nat ->
  probe_loop fuel fs email_dir filename (email_dir </> filename) 1
  = Some (resolve_collision fs email_dir filename).
Proof.
  intros Hfuel. unfold resolve_collision.
  destruct (probe_loop_returns fs email_dir filename (S (size fs))
              (email_dir </> filename) 1) as [p Hp]; [lia|].
  rewrite Hp. simpl. eapply probe_loop_more; [|exact Hp]. lia.
Qed.

Lemma resolve_collision_free fs email_dir filename :
  fs !! resolve_collision fs email_dir filename = None.
Proof.
  pose proof (resolve_collision_probe fs email_dir filename
                (S (size fs)) (Nat.lt_succ_diag_r _)) as H.
  by apply probe_loop_Some in H as [H _].
Qed.

Lemma resolve_successively_fresh n fs email_dir filename payload :
  NoDup (resolve_successively n fs email_dir filename payload)
  /\ Forall (fun p => fs !! p = None)
            (resolve_successively n fs email_dir filename payload).
Proof.
  revert fs. induction n as [|n IH]; intros fs; simpl.
  - split; constructor.
  - set (p := resolve_collision fs email_dir filename).
    destruct (IH (write_file p payload fs)) as [Hnd Hall].
    rewrite Forall_forall in Hall. split.
    + constructor; [|done]. intros Hin. specialize (Hall _ Hin).
      unfold write_file in Hall. by rewrite lookup_insert_eq in Hall.
    + constructor; [apply resolve_collision_free|].
      apply Forall_forall. intros q Hq. specialize (Hall _ Hq).
      unfold write_file in Hall. by apply lookup_insert_None in Hall as [? _].
Qed.

(** C6: for every storage with finitely many entries and every desired
    attachment file name, collision resolution ends, whatever number of
    turns above the number of entries is allowed, and returns a path that
    does not exist: the desired path if that is free, and otherwise the
    first of dir/stem_n.ext, n = 1, 2, 3, ..., that does not exist,
    however large n has to be.  Successive resolutions of the same name,
    each followed by the creation of the file, return pairwise distinct
    paths, none of which existed before. *)
Theorem resolve_collision_terminates_fresh
    (fs : filesystem) (email_dir : Path) (filename : pystr) :
  (forall fuel, (size fs < fuel)%nat ->
     probe_loop fuel fs email_dir filename (email_dir </> filename) 1
     = Some (resolve_collision fs email_dir filename))
  /\ fs !! resolve_collision fs email_dir filename = None
  /\ (fs !! (email_dir </> filename) = None ->
      resolve_collision fs email_dir filename = email_dir </> filename)
  /\ (forall n, is_Some (fs !! (email_dir </> filename)) ->
      (1 <= n)%nat ->
      (forall m, (1 <= m < n)%nat ->
         is_Some (fs !! candidate email_dir filename m)) ->
      fs !! candidate email_dir filename n = None ->
      resolve_collision fs email_dir filename
      = candidate email_dir filename n)
  /\ (forall N payload,
      NoDup (resolve_successively N fs email_dir filename payload)
      /\ Forall (fun p => fs !! p = None)
                (resolve_successively N fs email_dir filename payload)).
Proof.
  pose proof (resolve_collision_probe fs email_dir filename
                (S (size fs)) (Nat.lt_succ_diag_r _)) as Hrun.
  apply probe_loop_Some in Hrun as [Hfree Hwhich].
  split; [apply resolve_collision_probe|].
  split; [done|]. split; [|split].
  - intros Hdesired.
    destruct Hwhich as [->|(n & _ & [x Hx] & _)]; [done|congruence].
  - intros n Hdesired Hn Hbelow Hn_free.
    destruct Hwhich as [E|(n' & Hn' & _ & E & Hbelow')].
    + rewrite E in Hfree. destruct Hdesired. congruence.
    + rewrite E in *. f_equal.
      destruct (Nat.lt_trichotomy n n') as [Hlt|[->|Hgt]]; [|done|].
      * destruct (Hbelow' n) as [x Hx]; [lia|congruence].
      * destruct (Hbelow n') as [x Hx]; [lia|congruence].
  - intros N payload. apply resolve_successively_fresh.
Qed.

(** ** What the writes of a download leave untouched *)

Lemma mkdir_one_preserves (q : Path) (fs : filesystem) (p : Path)
    (n : node) :
  fs !! p = Some n -> mkdir_one q fs !! p = Some n.
Proof.
  intros H. unfold mkdir_one. destruct (fs !! q) eqn:E; [done|].
  rewrite lookup_insert_ne; [done|]. congruence.
Qed.

Lemma mkdir_parents_preserves (q : Path) (fs : filesystem) (p : Path)
    (n : node) :
  fs !! p = Some n -> mkdir_parents q fs !! p = Some n.
Proof.
  intros H. unfold mkdir_parents.
  induction (map _ _) as [|q' qs IH]; simpl; [done|].
  by apply mkdir_one_preserves.
Qed.

Section Download.
Variable datetime : Type.
Variables strftime_dir strftime_before : datetime -> pystr.
Variable now : datetime.
Variables sanitize_filename decode_mime_header : pystr -> pystr.
Variable message_from_bytes : bytes -> Message.
Variable dir_st_size : nat.
Variable c : IMAPClient datetime.

Local Abbreviation process_single_message :=
  (_process_single_message datetime strftime_dir now sanitize_filename
     decode_mime_header message_from_bytes dir_st_size (Some c)).
Local Abbreviation download_messages :=
  (_download_messages datetime strftime_dir now sanitize_filename
     decode_mime_header message_from_bytes dir_st_size (Some c)).
Local Abbreviation download :=
  (download_folder datetime strftime_dir now sanitize_filename
     decode_mime_header message_from_bytes dir_st_size (Some c)).
Local Abbreviation step :=
  (download_step datetime strftime_dir now sanitize_filename
     decode_mime_header message_from_bytes dir_st_size (Some c)).
Local Abbreviation save_attachments :=
  (_save_attachments sanitize_filename decode_mime_header).

Lemma save_single_attachment_preserves (part : Part) (filename : pystr)
    (email_dir : Path) (fs : filesystem) (p : Path) (n : node) :
  fs !! p = Some n ->
  (_save_single_attachment sanitize_filename decode_mime_header
     part filename email_dir fs).2 !! p = Some n.
Proof.
  intros H. unfold _save_single_attachment.
  destruct (get_payload part) as [[|b payload]|]; simpl; try done.
  unfold write_file. rewrite lookup_insert_ne; [done|].
  intros E. rewrite <- E, resolve_collision_free in H. done.
Qed.

Lemma save_part_preserves (email_dir : Path) (acc : nat * filesystem)
    (part : Part) (p : Path) (n : node) :
  acc.2 !! p = Some n ->
  (save_part sanitize_filename decode_mime_header email_dir acc part).2
    !! p = Some n.
Proof.
  destruct acc as [k fs]. simpl. intros H.
  destruct (_ && _); [done|].
  destruct (get_filename part) as [[|ch filename]|]; try done.
  pose proof (save_single_attachment_preserves part (ch :: filename)
                email_dir fs p n H) as Hs.
  by destruct (_save_single_attachment _ _ _ _ _ _).
Qed.

Lemma save_attachments_preserves (msg : Message) (email_dir : Path)
    (fs : filesystem) (p : Path) (n : node) :
  fs !! p = Some n -> (save_attachments msg email_dir fs).2 !! p = Some n.
Proof.
  intros H. unfold _save_attachments.
  destruct (negb (is_multipart msg)); [done|].
  change (fs !! p = Some n) with ((0%nat, fs).2 !! p = Some n) in H.
  revert H. generalize (0%nat, fs).
  induction (walk msg) as [|part parts IH]; intros acc H; simpl; [done|].
  by apply IH, save_part_preserves.
Qed.

(** The path of the raw-message file of a fetched message: the
    directory computed from its timestamp, its handle and its sanitised
    subject, and the fixed file name. *)
Definition email_path_of (folder_output : Path) (uid : nat)
    (reply : Fetched datetime) : Path :=
  _create_email_directory datetime strftime_dir sanitize_filename
    decode_mime_header (message_from_bytes (RFC822 reply)) uid
    (default now (INTERNALDATE reply)) folder_output
  </> lit "email.eml".

(** The raw file of message [uid] is in place: whenever the server
    delivers the message, the storage holds an entry at its path whose
    size is the length of the bytes delivered. *)
Definition raw_file_in_place (fs : filesystem) (folder_output : Path)
    (uid : nat) : Prop :=
  forall reply, fetch c uid = FetchReply (Some reply) ->
    exists n, fs !! email_path_of folder_output uid reply = Some n
         /\ st_size dir_st_size n = length (RFC822 reply).

Lemma process_skips (fs : filesystem) (folder_output : Path) (uid : nat)
    (reply : Fetched datetime) (n : node) :
  fetch c uid = FetchReply (Some reply) ->
  fs !! email_path_of folder_output uid reply = Some n ->
  st_size dir_st_size n = length (RFC822 reply) ->
  process_single_message uid folder_output fs = ((skipped, 0%nat), fs).
Proof.
  intros Hfetch Hfile Hsize. unfold _process_single_message.
  rewrite Hfetch. unfold _should_skip_email.
  unfold email_path_of in Hfile. rewrite Hfile.
  by rewrite bool_decide_eq_true_2.
Qed.

Lemma process_in_place (fs : filesystem) (folder_output : Path)
    (uid : nat) :
  raw_file_in_place fs folder_output uid ->
  (process_single_message uid folder_output fs).1.1 <> downloaded
  /\ (process_single_message uid folder_output fs).2 = fs.
Proof.
  intros Hin. destruct (fetch c uid) as [|[reply|]] eqn:Hfetch.
  - unfold _process_single_message. by rewrite Hfetch.
  - destruct (Hin reply Hfetch) as (n & Hfile & Hsize).
    by rewrite (process_skips _ _ _ _ _ Hfetch Hfile Hsize).
  - unfold _process_single_message. by rewrite Hfetch.
Qed.

Lemma download_step_in_place (folder_output : Path) (k : counters)
    (fs : filesystem) (uid : nat) :
  raw_file_in_place fs folder_output uid ->
  exists k',
    step folder_output (k, fs) uid = (k', fs)
    /\ emails_downloaded k' = emails_downloaded k
    /\ attachments_downloaded k' = attachments_downloaded k.
Proof.
  intros Hin. unfold download_step.
  destruct (process_in_place fs folder_output uid Hin) as [Hres Hfs].
  destruct (process_single_message uid folder_output fs)
    as [[res cnt] fs'].
  simpl in Hres, Hfs. subst fs'.
  destruct res; [done| |]; eauto.
Qed.

Lemma download_loop_in_place (messages : list nat)
    (folder_output : Path) (k : counters) (fs : filesystem) :
  (forall uid, uid ∈ messages -> raw_file_in_place fs folder_output uid) ->
  exists k',
    fold_left (step folder_output) messages (k, fs) = (k', fs)
    /\ emails_downloaded k' = emails_downloaded k
    /\ attachments_downloaded k' = attachments_downloaded k.
Proof.
  revert k. induction messages as [|uid messages IH]; intros k Hall.
  - by exists k.
  - destruct (download_step_in_place folder_output k fs uid)
      as (k1 & E1 & H1 & H2); [apply Hall; left|].
    destruct (IH k1) as (k' & E & H3 & H4);
      [intros u Hu; apply Hall; by right|].
    exists k'. cbn [fold_left]. rewrite E1, E.
    split; [done|]. split; congruence.
Qed.

Lemma download_messages_in_place (messages : list nat)
    (folder_output : Path) (fs : filesystem) :
  (forall uid, uid ∈ messages -> raw_file_in_place fs folder_output uid) ->
  download_messages messages folder_output fs = ((0, 0)%nat, fs).
Proof.
  intros Hall. unfold _download_messages.
  edestruct download_loop_in_place as (k' & -> & H1 & H2); [exact Hall|].
  by rewrite H1, H2.
Qed.

(** A message that was downloaded or skipped has its raw file in place
    afterwards. *)
Lemma process_leaves_raw_file (fs : filesystem) (folder_output : Path)
    (uid : nat) :
  (process_single_message uid folder_output fs).1.1 <> error ->
  raw_file_in_place (process_single_message uid folder_output fs).2
    folder_output uid.
Proof.
  unfold raw_file_in_place, _process_single_message.
  intros Hres reply Hfetch. rewrite Hfetch in *.
  unfold email_path_of.
  set (email_dir := _create_email_directory _ _ _ _ _ _ _ _) in *.
  unfold _should_skip_email in *.
  destruct (fs !! (email_dir </> lit "email.eml")) as [n|] eqn:Hfile.
  - destruct (bool_decide (st_size dir_st_size n = length (RFC822 reply)))
      eqn:Hsize.
    + apply bool_decide_eq_true in Hsize. simpl. eauto.
    + match goal with
      | |- context [save_attachments ?m ?d ?f] =>
          pose proof (save_attachments_preserves m d f
                        (email_dir </> lit "email.eml")
                        (File (RFC822 reply))) as Hkeep;
          destruct (save_attachments m d f) as [cnt fs']
      end.
      simpl in *. exists (File (RFC822 reply)). split; [|done].
      apply Hkeep. unfold write_file. apply lookup_insert_eq.
  - match goal with
    | |- context [save_attachments ?m ?d ?f] =>
        pose proof (save_attachments_preserves m d f
                      (email_dir </> lit "email.eml")
                      (File (RFC822 reply))) as Hkeep;
        destruct (save_attachments m d f) as [cnt fs']
    end.
    simpl in *. exists (File (RFC822 reply)). split; [|done].
    apply Hkeep. unfold write_file. apply lookup_insert_eq.
Qed.

Lemma raw_file_in_place_preserved (fs fs' : filesystem)
    (folder_output : Path) (uid : nat) :
  (forall (p : Path) (n : node), fs !! p = Some n -> fs' !! p = Some n) ->
  raw_file_in_place fs folder_output uid ->
  raw_file_in_place fs' folder_output uid.
Proof.
  intros Hkeep Hin reply Hfetch.
  destruct (Hin reply Hfetch) as (n & Hfile & Hsize). eauto.
Qed.

(** C1: in a download that is not a dry run, a message whose raw file
    already exists at the directory computed from its timestamp, handle
    and sanitised subject, with a stored size equal to the length of the
    bytes just fetched, is classified skipped: the storage is left as it
    was (the raw file is not rewritten, no attachment is extracted) and
    the count of downloaded messages does not move.  So a run over
    messages whose raw files are all in place returns zero downloaded
    messages and leaves every entry as it was, which is the case of the
    second of two runs over an unchanged folder; and every message a run
    downloads or skips has its raw file in place afterwards. *)
Theorem skip_same_size_raw_file :
  (forall (fs : filesystem) (folder_output : Path) (uid : nat)
          (reply : Fetched datetime) (n : node),
     fetch c uid = FetchReply (Some reply) ->
     fs !! email_path_of folder_output uid reply = Some n ->
     st_size dir_st_size n = length (RFC822 reply) ->
     process_single_message uid folder_output fs = ((skipped, 0%nat), fs)
     /\ forall k : counters,
          step folder_output (k, fs) uid
          = ({| emails_downloaded := emails_downloaded k;
                emails_skipped := S (emails_skipped k);
                attachments_downloaded := attachments_downloaded k |},
             fs))
  /\ (forall (fs : filesystem) (folder_output : Path)
             (messages : list nat),
        (forall uid, uid ∈ messages ->
           raw_file_in_place fs folder_output uid) ->
        download_messages messages folder_output fs = ((0, 0)%nat, fs))
  /\ (forall (fs : filesystem) (folder_name : pystr)
             (output_path : Path),
        (forall uid, uid ∈ search c ALL ->
           raw_file_in_place fs
             (output_path </> sanitize_filename folder_name) uid) ->
        (download folder_name output_path false fs).1 = (0, 0)%nat
        /\ forall (p : Path) (n : node), fs !! p = Some n ->
             (download folder_name output_path false fs).2 !! p = Some n)
  /\ (forall (fs : filesystem) (folder_output : Path) (uid : nat),
        (process_single_message uid folder_output fs).1.1 <> error ->
        raw_file_in_place
          (process_single_message uid folder_output fs).2
          folder_output uid).
Proof.
  split; [|split; [|split]].
  - intros fs folder_output uid reply n Hfetch Hfile Hsize.
    pose proof (process_skips _ _ _ _ _ Hfetch Hfile Hsize) as Hskip.
    split; [done|]. intros k. unfold download_step. by rewrite Hskip.
  - intros fs folder_output messages.
    apply download_messages_in_place.
  - intros fs folder_name output_path Hall. unfold download_folder.
    destruct (_select_folder_for_download _ _ _) as [total|]; [|done].
    destruct (total =? 0)%nat; [done|].
    unfold _create_folder_output_dir.
    rewrite download_messages_in_place.
    + split; [done|]. intros p n. apply mkdir_parents_preserves.
    + intros uid Huid. eapply raw_file_in_place_preserved; [|by apply Hall].
      intros p n. apply mkdir_parents_preserves.
  - apply process_leaves_raw_file.
Qed.

(** C8: for a folder the server reports N messages for, a dry-run
    download returns (N, 0) and leaves the storage as it was, no
    directory or file is created; and when the count is zero the
    download returns (0, 0) with the storage as it was, dry run or
    not. *)
Theorem dry_run_download_touches_nothing
    (folder_name : pystr) (output_path : Path) (fs : filesystem)
    (N : nat) :
  select_folder c folder_name true = SelectInfo (Some N) ->
  download_folder datetime strftime_dir now sanitize_filename
    decode_mime_header message_from_bytes dir_st_size (Some c)
    folder_name output_path true fs
  = ((N, 0%nat), fs)
  /\ (N = 0%nat -> forall dry_run,
        download_folder datetime strftime_dir now sanitize_filename
          decode_mime_header message_from_bytes dir_st_size (Some c)
          folder_name output_path dry_run fs
        = ((0, 0)%nat, fs)).
Proof.
  intros Hselect. unfold download_folder, _select_folder_for_download.
  rewrite Hselect. simpl. split.
  - by destruct N.
  - by intros ->.
Qed.

End Download.

(** ** Deletion *)

(** The two events that change the mailbox. *)
Definition mutates (e : event) : bool :=
  match e with
  | DeleteMessages _ | Expunge => true
  | _ => false
  end.

Section Deletion.
Variable datetime : Type.
Variable strftime_before : datetime -> pystr.
Variable confirm : pystr -> bool.

Local Abbreviation delete client :=
  (delete_folder_contents datetime strftime_before client confirm).

(** The criteria the engine searches with, and the handles matched. *)
Definition criteria_of (since_date : option datetime) : search_criteria :=
  match since_date with
  | Some d => BEFORE (strftime_before d)
  | None => ALL
  end.

Definition matched (c : IMAPClient datetime)
    (since_date : option datetime) : list nat :=
  search c (criteria_of since_date).

Lemma search_for_delete (c : IMAPClient datetime)
    (since_date : option datetime) :
  _search_messages_for_delete datetime strftime_before (Some c) since_date
  = (matched c since_date, [Search (criteria_of since_date)]).
Proof. by destruct since_date. Qed.

Lemma confirm_deletion_cases :
  _confirm_deletion confirm
  = if confirm prompt_sure then
      if confirm prompt_again
      then (true, [ConfirmAsk prompt_sure true;
                   ConfirmAsk prompt_again true])
      else (false, [ConfirmAsk prompt_sure true;
                    ConfirmAsk prompt_again false])
    else (false, [ConfirmAsk prompt_sure false]).
Proof.
  unfold _confirm_deletion.
  destruct (confirm prompt_sure); simpl; [|done].
  by destruct (confirm prompt_again).
Qed.

(** C5: in a deletion that is not a dry run and that matches at least
    one message, delete and expunge are issued only after the two
    confirmations were both answered yes, the second being asked only
    after a yes to the first; a no returns 0 and nothing more is sent.
    After two yes, delete is sent for the matched handles, expunge
    follows it, and the count returned is the number of matched handles.
    More generally, no run of the engine sends delete or expunge unless
    it is not a dry run and both answers are yes. *)
Theorem deletion_needs_two_confirmations :
  (forall (c : IMAPClient datetime) (folder_name : pystr)
          (since_date : option datetime) (total : nat),
     select_folder c folder_name false = SelectInfo (Some (S total)) ->
     matched c since_date <> [] ->
     delete (Some c) folder_name false since_date
     = let asked :=
         [SelectFolder folder_name false;
          Search (criteria_of since_date)] in
       if confirm prompt_sure then
         if confirm prompt_again then
           (length (matched c since_date),
            asked ++ [ConfirmAsk prompt_sure true;
                      ConfirmAsk prompt_again true;
                      DeleteMessages (matched c since_date);
                      Expunge])
         else
           (0%nat, asked ++ [ConfirmAsk prompt_sure true;
                             ConfirmAsk prompt_again false])
       else (0%nat, asked ++ [ConfirmAsk prompt_sure false]))
  /\ (forall (client : option (IMAPClient datetime))
             (folder_name : pystr) (dry_run : bool)
             (since_date : option datetime),
        existsb mutates (delete client folder_name dry_run since_date).2
        = true ->
        dry_run = false
        /\ confirm prompt_sure = true /\ confirm prompt_again = true).
Proof.
  split.
  - intros c folder_name since_date total Hselect Hmatched.
    unfold delete_folder_contents, _select_folder_for_delete.
    rewrite Hselect, search_for_delete. simpl.
    destruct (matched c since_date) as [|uid rest] eqn:E; [done|].
    simpl. rewrite confirm_deletion_cases.
    destruct (confirm prompt_sure); [|done].
    by destruct (confirm prompt_again).
  - intros [c|] folder_name dry_run since_date; [|done].
    unfold delete_folder_contents, _select_folder_for_delete.
    rewrite search_for_delete.
    destruct (select_folder c folder_name false) as [|[[|total]|]];
      simpl; try done.
    destruct (matched c since_date) as [|uid rest]; [done|].
    simpl. destruct dry_run; [done|].
    rewrite confirm_deletion_cases.
    destruct (confirm prompt_sure); [|done].
    by destruct (confirm prompt_again).
Qed.

End Deletion.

(** ** A small mailbox and storage to run the engines on *)

Definition demo_strftime (_ : nat) : pystr := lit "20240115_143000".

Definition demo_message (_ : bytes) : Message :=
  {| subject := Some (lit "Test Subject");
     is_multipart := false;
     walk := [] |}.

Definition demo_raw : bytes := [Byte.x48; Byte.x69].

Definition demo_reply : Fetched nat :=
  {| RFC822 := demo_raw; INTERNALDATE := Some 0%nat |}.

(** A folder with one message, whose handle is 1. *)
Definition demo_client : IMAPClient nat :=
  {| select_folder := fun _ _ => SelectInfo (Some 1%nat);
     search := fun _ => [1%nat];
     fetch := fun uid =>
       if (uid =? 1)%nat then FetchReply (Some demo_reply)
       else FetchReply None |}.

Definition demo_folder_output : Path := [lit "out"; lit "INBOX"].

Definition demo_email_path : Path :=
  demo_folder_output
  ++ [lit "20240115_143000_1_Test Subject"; lit "email.eml"].

(** The storage after a first download of that folder. *)
Definition demo_fs : filesystem :=
  {[ demo_email_path := File demo_raw ]}.

Lemma skip_same_size_raw_file_witness :
  _process_single_message nat demo_strftime 0%nat NamePolicy.sanitize id
    demo_message 4096 (Some demo_client) 1 demo_folder_output demo_fs
  = ((skipped, 0%nat), demo_fs).
Proof.
  refine (proj1 (proj1 (skip_same_size_raw_file nat demo_strftime 0%nat
                   NamePolicy.sanitize id demo_message 4096 demo_client)
                 demo_fs demo_folder_output 1%nat demo_reply
                 (File demo_raw) _ _ _)).
  - reflexivity.
  - by vm_compute.
  - reflexivity.
Defined.

Lemma dry_run_download_touches_nothing_witness :
  download_folder nat demo_strftime 0%nat NamePolicy.sanitize id
    demo_message 4096 (Some demo_client) (lit "INBOX") [lit "out"] true ∅
  = ((1%nat, 0%nat), ∅).
Proof.
  refine (proj1 (dry_run_download_touches_nothing nat demo_strftime 0%nat
                   NamePolicy.sanitize id demo_message 4096 demo_client
                   (lit "INBOX") [lit "out"] ∅ 1%nat _)).
  reflexivity.
Defined.

Lemma deletion_needs_two_confirmations_witness :
  delete_folder_contents nat demo_strftime (Some demo_client)
    (fun _ => true) (lit "INBOX") false None
  = (1%nat,
     [SelectFolder (lit "INBOX") false; Search ALL;
      ConfirmAsk prompt_sure true; ConfirmAsk prompt_again true;
      DeleteMessages [1%nat]; Expunge]).
Proof.
  refine (proj1 (deletion_needs_two_confirmations nat demo_strftime
                   (fun _ => true))
                demo_client (lit "INBOX") None 0%nat _ _).
  - reflexivity.
  - discriminate.
Defined.

(** A directory that already holds [a.txt]. *)
Definition demo_dir_fs : filesystem :=
  {[ [lit "d"; lit "a.txt"] := File demo_raw ]}.

Lemma resolve_collision_terminates_fresh_witness :
  resolve_collision demo_dir_fs [lit "d"] (lit "a.txt")
  = [lit "d"; lit "a_1.txt"]
  /\ resolve_collision demo_dir_fs [lit "d"] (lit "b.txt")
     = [lit "d"; lit "b.txt"].
Proof.
  split.
  - refine (proj1 (proj2 (proj2 (proj2
              (resolve_collision_terminates_fresh demo_dir_fs [lit "d"]
                 (lit "a.txt"))))) 1%nat _ _ _ _).
    + exists (File demo_raw). by vm_compute.
    + lia.
    + intros m Hm. lia.
    + by vm_compute.
  - refine (proj1 (proj2 (proj2
              (resolve_collision_terminates_fresh demo_dir_fs [lit "d"]
                 (lit "b.txt")))) _).
    by vm_compute.
Defined.

End ArchiverFacts.

(* ===================================================================== *)
(** * Properties of the uploader *)
(* ===================================================================== *)

Module UploaderFacts.
Import Uploader PyStrFacts.

(** ** The paths the fallback creates, in the words of the
       specification *)

(** Each component joined to what precedes it, left to right. *)
Fixpoint cumulative (base : pystr) (components : list pystr)
  : list pystr :=
  match components with
  | [] => []
  | comp :: components' =>
      let path := base ++ backslash ++ comp in
      path :: cumulative path components'
  end.

Definition nonempty (s : pystr) : bool :=
  match s with [] => false | _ :: _ => true end.

(** The paths of the segments of a UNC path after host and share, which
    are the third and fourth pieces behind the double separator. *)
Definition segment_paths (remote_dir : pystr) : list pystr :=
  let parts := split 92 (replace 47 92 remote_dir) in
  if bool_decide (4 < length parts)%nat then
    cumulative (backslash ++ backslash ++ default [] (parts !! 2%nat)
                ++ backslash ++ default [] (parts !! 3%nat))
               (filter (fun s => nonempty s = true) (drop 4 parts))
  else [].

(** Whether the outcome of the bulk call makes the fallback run. *)
Definition fallback_runs (o : outcome) : bool :=
  match o with
  | Return => false
  | Raise e => wants_fallback e
  end.

Section Facts.
Context {W : Type}.
Variable smbclient : SMBClient W.
Variable self : NASUploader.

Local Abbreviation run := (@run W).

(** The state after one more call. *)
Definition after (r : run) (c : call) (w : W) : run :=
  {| world := w; calls := calls r ++ [c];
     created_dirs := created_dirs r |}.

Lemma call_makedirs_eq (path : pystr) (r : run) :
  call_makedirs smbclient path r
  = ((makedirs smbclient path (world r)).1,
     after r (Makedirs path) (makedirs smbclient path (world r)).2).
Proof.
  unfold call_makedirs, invoke, after.
  by destruct (makedirs smbclient path (world r)).
Qed.

Lemma call_stat_eq (path : pystr) (r : run) :
  call_stat smbclient path r
  = ((stat smbclient path (world r)).1,
     after r (Stat path) (stat smbclient path (world r)).2).
Proof.
  unfold call_stat, invoke, after.
  by destruct (stat smbclient path (world r)).
Qed.

Lemma call_open_file_write_eq (path : pystr) (data : bytes) (r : run) :
  call_open_file_write smbclient path data r
  = ((open_file_write smbclient path data (world r)).1,
     after r (OpenFileWrite path data)
           (open_file_write smbclient path data (world r)).2).
Proof.
  unfold call_open_file_write, invoke, after.
  by destruct (open_file_write smbclient path data (world r)).
Qed.

(** The calls of the incremental creation do not depend on how the
    share answers them. *)
Lemma create_levels_calls (current_path : pystr) (parts : list pystr)
    (r : run) :
  calls (create_levels smbclient current_path parts r).2
  = calls r
    ++ (Makedirs <$> cumulative current_path
                       (filter (fun s => nonempty s = true) parts))
  /\ created_dirs (create_levels smbclient current_path parts r).2
     = created_dirs r.
Proof.
  revert current_path r.
  induction parts as [|part parts IH]; intros current_path r.
  - simpl. by rewrite app_nil_r.
  - destruct part as [|ch part].
    + simpl. apply IH.
    + cbn [create_levels]. unfold mbind, M_bind.
      rewrite call_makedirs_eq.
      destruct (IH (current_path ++ backslash ++ ch :: part)
                   (after r (Makedirs (current_path ++ backslash
                                       ++ ch :: part))
                      (makedirs smbclient
                         (current_path ++ backslash ++ ch :: part)
                         (world r)).2)) as [-> ->].
      rewrite filter_cons_True by done. simpl.
      by rewrite <- app_assoc.
Qed.

Lemma create_directories_incrementally_calls (remote_dir : pystr)
    (r : run) :
  calls (_create_directories_incrementally smbclient remote_dir r).2
  = calls r ++ (Makedirs <$> segment_paths remote_dir)
  /\ created_dirs
       (_create_directories_incrementally smbclient remote_dir r).2
     = created_dirs r.
Proof.
  unfold _create_directories_incrementally, segment_paths.
  destruct (bool_decide _).
  - apply create_levels_calls.
  - simpl. by rewrite app_nil_r.
Qed.

Lemma ensure_directory_exists_eq (remote_dir : pystr) (r : run) :
  _ensure_directory_exists smbclient remote_dir r
  = let o := (makedirs smbclient remote_dir (world r)).1 in
    let r1 := after r (Makedirs remote_dir)
                (makedirs smbclient remote_dir (world r)).2 in
    if fallback_runs o
    then _create_directories_incrementally smbclient remote_dir r1
    else (tt, r1).
Proof.
  unfold _ensure_directory_exists, mbind, M_bind.
  rewrite call_makedirs_eq. simpl.
  destruct ((makedirs smbclient remote_dir (world r)).1) as [|e];
    simpl; [done|].
  by destruct (wants_fallback e).
Qed.

Lemma fallback_runs_iff (o : outcome) :
  fallback_runs o = true
  <-> exists e, o = Raise e
        /\ ((exists a b, e = a ++ lit "No such file" ++ b)
            \/ (exists a b, e = a ++ lit "0xc000003a" ++ b)).
Proof.
  destruct o as [|e]; simpl.
  - split; [done|]. by intros (e & ? & _).
  - unfold wants_fallback. rewrite orb_true_iff, !contains_infix.
    split.
    + intros H. by exists e.
    + by intros (e' & [= <-] & H).
Qed.

(** The calls of a directory creation: the bulk call, then those of the
    fallback when it runs. *)
Lemma ensure_directory_exists_calls (remote_dir : pystr) (r : run) :
  calls (_ensure_directory_exists smbclient remote_dir r).2
  = calls r ++ [Makedirs remote_dir]
    ++ (if fallback_runs (makedirs smbclient remote_dir (world r)).1
        then Makedirs <$> segment_paths remote_dir else []).
Proof.
  rewrite ensure_directory_exists_eq. cbv zeta.
  destruct (fallback_runs _); [|done].
  match goal with
  | |- calls (_create_directories_incrementally _ _ ?r1).2 = _ =>
      destruct (create_directories_incrementally_calls remote_dir r1)
        as [-> _]
  end.
  simpl. by rewrite <- app_assoc.
Qed.

End Facts.

(** ** Directory creation *)

(** C4: for every remote directory path, directory creation first makes
    one bulk create-with-parents call; the per-segment fallback runs if and
    only if that call fails with an error whose text contains
    "No such file" or "0xc000003a"; and the fallback calls create on each
    path component after host and share, left to right, whatever the
    outcome of each of these calls. *)
Theorem fallback_iff_bulk_call_fails {W : Type} (smbclient : SMBClient W)
    (remote_dir : pystr) (r : @run W) :
  let bulk := makedirs smbclient remote_dir (world r) in
  let r1 := after r (Makedirs remote_dir) bulk.2 in
  _ensure_directory_exists smbclient remote_dir r
  = (if fallback_runs bulk.1
     then _create_directories_incrementally smbclient remote_dir r1
     else (tt, r1))
  /\ (fallback_runs bulk.1 = true
      <-> exists e, bulk.1 = Raise e
            /\ ((exists a b, e = a ++ lit "No such file" ++ b)
                \/ (exists a b, e = a ++ lit "0xc000003a" ++ b)))
  /\ calls (_ensure_directory_exists smbclient remote_dir r).2
     = calls r ++ [Makedirs remote_dir]
       ++ (if fallback_runs bulk.1
           then Makedirs <$> segment_paths remote_dir else []).
Proof.
  intros bulk r1. split; [apply ensure_directory_exists_eq|].
  split; [apply fallback_runs_iff|].
  rewrite ensure_directory_exists_eq. subst bulk r1. cbv zeta.
  destruct (fallback_runs _).
  - match goal with
    | |- calls (_create_directories_incrementally _ _ ?r1).2 = _ =>
        destruct (create_directories_incrementally_calls smbclient
                    remote_dir r1) as [-> _]
    end.
    simpl. by rewrite <- app_assoc.
  - done.
Qed.

(** ** One file *)

Section SingleFile.
Context {W : Type}.
Variable smbclient : SMBClient W.
Variable self : NASUploader.

Local Abbreviation run := (@run W).

(** The first half of [_upload_single_file]: the parent directory is
    created unless the run has created it before. *)
Definition dir_step (local_file : LocalFile) (r : run) : run :=
  let remote_dir :=
    _get_parent_directory (remote_path_of self local_file) in
  if bool_decide (remote_dir ∈ created_dirs r) then r
  else
    let r' := (_ensure_directory_exists smbclient remote_dir r).2 in
    {| world := world r'; calls := calls r';
       created_dirs := {[remote_dir]} ∪ created_dirs r' |}.

Lemma write_file_to_nas_eq (local_file : LocalFile) (path : pystr)
    (r : run) :
  _write_file_to_nas smbclient local_file path r
  = match local_content local_file with
    | None => (error, r)
    | Some data =>
        let o := (open_file_write smbclient path data (world r)).1 in
        (match o with Return => uploaded | Raise _ => error end,
         after r (OpenFileWrite path data)
               (open_file_write smbclient path data (world r)).2)
    end.
Proof.
  unfold _write_file_to_nas.
  destruct (local_content local_file) as [data|]; [|done].
  unfold mbind, M_bind. rewrite call_open_file_write_eq. simpl.
  by destruct ((open_file_write smbclient path data (world r)).1).
Qed.

Lemma upload_single_file_eq (overwrite : bool) (local_file : LocalFile)
    (r : run) :
  _upload_single_file smbclient self overwrite local_file r
  = let path := remote_path_of self local_file in
    let r1 := dir_step local_file r in
    if overwrite then _write_file_to_nas smbclient local_file path r1
    else
      let r2 := after r1 (Stat path) (stat smbclient path (world r1)).2 in
      match (stat smbclient path (world r1)).1 with
      | Return => (skipped, r2)
      | Raise _ => _write_file_to_nas smbclient local_file path r2
      end.
Proof.
  unfold _upload_single_file, dir_step, mbind, M_bind, is_created.
  destruct (bool_decide _); simpl.
  - destruct overwrite; simpl; [done|].
    unfold _file_exists_on_nas, mbind, M_bind. rewrite call_stat_eq.
    simpl. by destruct ((stat smbclient _ (world r)).1).
  - destruct (_ensure_directory_exists smbclient _ r) as [[] r'].
    simpl. destruct overwrite; simpl; [done|].
    unfold _file_exists_on_nas, mbind, M_bind. rewrite call_stat_eq.
    simpl. by destruct ((stat smbclient _ _).1).
Qed.

(** The calls of the directory step are creations of directories. *)
Definition is_makedirs (c : call) : bool :=
  match c with Makedirs _ => true | _ => false end.

Lemma dir_step_calls (local_file : LocalFile) (r : run) :
  exists l, calls (dir_step local_file r) = calls r ++ l
            /\ forallb is_makedirs l = true.
Proof.
  unfold dir_step. destruct (bool_decide _).
  - exists []. by rewrite app_nil_r.
  - simpl.
    rewrite (ensure_directory_exists_calls smbclient
               (_get_parent_directory (remote_path_of self local_file)) r).
    eexists. split; [reflexivity|]. simpl.
    destruct (fallback_runs _); [|done].
    induction (segment_paths _); simpl; auto.
Qed.

End SingleFile.

(** ** A whole run *)

Section Run.
Context {W : Type}.
Variable smbclient : SMBClient W.
Variable self : NASUploader.

Local Abbreviation run := (@run W).
Local Abbreviation upload_single_file :=
  (_upload_single_file smbclient self).
Local Abbreviation loop := (upload_loop smbclient self).

(** How the files of a run are classified, one after the other. *)
Fixpoint classify (overwrite : bool) (files : list LocalFile) (r : run)
  : list result :=
  match files with
  | [] => []
  | local_file :: files' =>
      let '(res, r') := upload_single_file overwrite local_file r in
      res :: classify overwrite files' r'
  end.

(** The number of files classified uploaded, and the bytes of these
    files alone. *)
Fixpoint tally (files : list LocalFile) (results : list result)
  : nat * nat :=
  match files, results with
  | local_file :: files', res :: results' =>
      let '(n, size) := tally files' results' in
      match res with
      | uploaded => (S n, (local_size local_file + size)%nat)
      | _ => (n, size)
      end
  | _, _ => (0, 0)%nat
  end.

Definition total_size (files : list LocalFile) : nat :=
  foldr (fun f n => (local_size f + n)%nat) 0%nat files.

Lemma upload_loop_tally (overwrite : bool) (files : list LocalFile)
    (u s t : nat) (r : run) :
  exists s' r',
    loop overwrite files (u, s, t) r
    = (((u + (tally files (classify overwrite files r)).1)%nat, s',
        (t + (tally files (classify overwrite files r)).2)%nat), r').
Proof.
  revert u s t r. induction files as [|f files IH]; intros u s t r.
  - exists s, r. simpl. by rewrite !Nat.add_0_r.
  - cbn [upload_loop classify]. unfold mbind, M_bind.
    destruct (upload_single_file overwrite f r) as [res r1].
    cbn [tally].
    destruct (tally files (classify overwrite files r1)) as [n size] eqn:E.
    destruct res.
    + destruct (IH (S u) s (t + local_size f)%nat r1) as (s' & r' & ->).
      rewrite E. simpl. exists s', r'.
      by rewrite Nat.add_succ_r, Nat.add_assoc.
    + destruct (IH u (S s) t r1) as (s' & r' & ->).
      rewrite E. simpl. by exists s', r'.
    + destruct (IH u s t r1) as (s' & r' & ->).
      rewrite E. simpl. by exists s', r'.
Qed.

Lemma upload_files_with_progress_tally (files : list LocalFile)
    (overwrite : bool) (r : run) :
  (_upload_files_with_progress smbclient self files overwrite r).1
  = tally files
      (classify overwrite files
         {| world := world r; calls := calls r; created_dirs := ∅ |}).
Proof.
  unfold _upload_files_with_progress.
  destruct (upload_loop_tally overwrite files 0 0 0
              {| world := world r; calls := calls r;
                 created_dirs := ∅ |}) as (s' & r' & ->).
  simpl. by destruct (tally _ _).
Qed.

(** Every probe of a file of the run finds the file. *)
Definition all_present (files : list LocalFile) : Prop :=
  forall f, f ∈ files ->
    forall w, (stat smbclient (remote_path_of self f) w).1 = Return.

(** Every file of the run can be read, and every transfer succeeds. *)
Definition all_transfer (files : list LocalFile) : Prop :=
  forall f, f ∈ files ->
    exists data, local_content f = Some data
      /\ forall w,
           (open_file_write smbclient (remote_path_of self f) data w).1
           = Return.

Lemma classify_all_present (files : list LocalFile) (r : run) :
  all_present files ->
  tally files (classify false files r) = (0, 0)%nat.
Proof.
  revert r. induction files as [|f files IH]; intros r Hall; [done|].
  cbn [classify]. rewrite upload_single_file_eq. cbv zeta.
  rewrite (Hall f) by left. cbn [tally].
  rewrite IH; [done|]. intros g Hg. apply Hall. by right.
Qed.

Lemma classify_all_transfer (files : list LocalFile) (r : run) :
  all_transfer files ->
  tally files (classify true files r) = (length files, total_size files).
Proof.
  revert r. induction files as [|f files IH]; intros r Hall; [done|].
  cbn [classify]. rewrite upload_single_file_eq. cbv zeta.
  rewrite write_file_to_nas_eq.
  destruct (Hall f) as (data & -> & Hw); [left|].
  cbv zeta. rewrite Hw. cbn [tally].
  rewrite IH; [done|]. intros g Hg. apply Hall. by right.
Qed.

Lemma execute_upload_eq (files : list LocalFile) (overwrite : bool)
    (r : run) :
  _execute_upload smbclient self files overwrite r
  = let session :=
      register_session smbclient (host self) (username self)
        (password self) (world r) in
    let r1 := after r (RegisterSession (host self) (username self)
                         (password self)) session.2 in
    match session.1 with
    | Raise _ => ((0, 0)%nat, r1)
    | Return =>
        _upload_files_with_progress smbclient self files overwrite
          (_create_base_directory smbclient self r1).2
    end.
Proof.
  unfold _execute_upload, mbind, M_bind, call_register_session, invoke.
  destruct (register_session _ _ _ _ _) as [[|e] w]; simpl; [|done].
  by destruct (_create_base_directory _ _ _).
Qed.

(** The state of the run after the files, one after the other. *)
Fixpoint state_after (overwrite : bool) (files : list LocalFile) (r : run)
  : run :=
  match files with
  | [] => r
  | local_file :: files' =>
      state_after overwrite files'
        (upload_single_file overwrite local_file r).2
  end.

Lemma upload_loop_state (overwrite : bool) (files : list LocalFile)
    (acc : nat * nat * nat) (r : run) :
  (loop overwrite files acc r).2 = state_after overwrite files r.
Proof.
  revert acc r. induction files as [|f files IH]; intros [[u s] t] r.
  - done.
  - cbn [upload_loop state_after]. unfold mbind, M_bind.
    destruct (upload_single_file overwrite f r) as [res r1].
    apply IH.
Qed.

Lemma upload_files_with_progress_state (files : list LocalFile)
    (overwrite : bool) (r : run) :
  (_upload_files_with_progress smbclient self files overwrite r).2
  = state_after overwrite files
      {| world := world r; calls := calls r; created_dirs := ∅ |}.
Proof.
  unfold _upload_files_with_progress.
  rewrite <- (upload_loop_state overwrite files (0, 0, 0)%nat).
  by destruct (upload_loop _ _ _ _ _ _) as [[[u s'] t] r'].
Qed.

(** The calls a run may add to the log: a probe only when it does not
    overwrite, and a transfer to a path only when it overwrites or a probe
    of that path can fail. *)
Definition permitted (overwrite : bool) (c : call) : Prop :=
  match c with
  | Stat _ => overwrite = false
  | OpenFileWrite path _ =>
      overwrite = true
      \/ exists w e, (stat smbclient path w).1 = Raise e
  | _ => True
  end.

Lemma makedirs_permitted (overwrite : bool) (l : list call) :
  forallb is_makedirs l = true -> Forall (permitted overwrite) l.
Proof.
  induction l as [|c l IH]; simpl; [constructor|].
  intros [Hc Hl]%andb_prop. constructor; [|by apply IH].
  by destruct c.
Qed.

Lemma ensure_directory_permitted (overwrite : bool) (remote_dir : pystr)
    (r : run) :
  exists l,
    calls (_ensure_directory_exists smbclient remote_dir r).2 = calls r ++ l
    /\ Forall (permitted overwrite) l.
Proof.
  rewrite ensure_directory_exists_calls. eexists. split; [reflexivity|].
  apply makedirs_permitted. simpl.
  destruct (fallback_runs _); [|done].
  induction (segment_paths _); simpl; auto.
Qed.

Lemma upload_single_file_permitted (overwrite : bool) (f : LocalFile)
    (r : run) :
  exists l,
    calls (upload_single_file overwrite f r).2 = calls r ++ l
    /\ Forall (permitted overwrite) l.
Proof.
  rewrite upload_single_file_eq. cbv zeta.
  destruct (dir_step_calls smbclient self f r) as (l & Hl & Hmk).
  apply (makedirs_permitted overwrite) in Hmk.
  destruct overwrite.
  - rewrite write_file_to_nas_eq.
    destruct (local_content f) as [data|].
    + exists (l ++ [OpenFileWrite (remote_path_of self f) data]).
      simpl. rewrite Hl, <- app_assoc. split; [done|].
      apply Forall_app. split; [done|]. constructor; [by left|constructor].
    + exists l. by split.
  - destruct ((stat smbclient (remote_path_of self f)
                 (world (dir_step smbclient self f r))).1) as [|e] eqn:E.
    + exists (l ++ [Stat (remote_path_of self f)]).
      simpl. rewrite Hl, <- app_assoc. split; [done|].
      apply Forall_app. split; [done|]. by repeat constructor.
    + rewrite write_file_to_nas_eq.
      destruct (local_content f) as [data|].
      * exists (l ++ [Stat (remote_path_of self f);
                      OpenFileWrite (remote_path_of self f) data]).
        simpl. rewrite Hl, <- !app_assoc. split; [done|].
        apply Forall_app. split; [done|].
        constructor; [done|]. constructor; [|constructor].
        right. eauto.
      * exists (l ++ [Stat (remote_path_of self f)]).
        simpl. rewrite Hl, <- app_assoc. split; [done|].
        apply Forall_app. split; [done|]. by repeat constructor.
Qed.

Lemma state_after_permitted (overwrite : bool) (files : list LocalFile)
    (r : run) :
  exists l,
    calls (state_after overwrite files r) = calls r ++ l
    /\ Forall (permitted overwrite) l.
Proof.
  revert r. induction files as [|f files IH]; intros r.
  - exists []. by rewrite app_nil_r.
  - cbn [state_after].
    destruct (upload_single_file_permitted overwrite f r)
      as (l1 & H1 & Hp1).
    destruct (IH (upload_single_file overwrite f r).2) as (l2 & H2 & Hp2).
    exists (l1 ++ l2). rewrite H2, H1, <- app_assoc. split; [done|].
    by apply Forall_app.
Qed.

Lemma upload_directory_permitted (files : list LocalFile)
    (overwrite : bool) (r : run) :
  exists l,
    calls (upload_directory smbclient self true files false overwrite r).2
    = calls r ++ l
    /\ Forall (permitted overwrite) l.
Proof.
  unfold upload_directory. simpl. rewrite execute_upload_eq. cbv zeta.
  destruct ((register_session _ _ _ _ _).1).
  - rewrite upload_files_with_progress_state.
    match goal with
    | |- context [state_after _ _ ?r0] =>
        destruct (state_after_permitted overwrite files r0)
          as (l2 & -> & Hp2)
    end.
    cbn [calls]. unfold _create_base_directory.
    match goal with
    | |- context [_ensure_directory_exists _ ?d ?r1] =>
        destruct (ensure_directory_permitted overwrite d r1)
          as (l1 & -> & Hp1)
    end.
    cbn [calls after]. eexists. rewrite <- !app_assoc.
    split; [reflexivity|].
    constructor; [done|]. by apply Forall_app.
  - cbn [snd calls after]. eexists. split; [reflexivity|].
    by repeat constructor.
Qed.

End Run.

(** ** Shares to run the engine on *)

(** A share on which every call returns, as the mocks of the test suite
    are. *)
Definition agreeable_share : SMBClient unit :=
  {| register_session := fun _ _ _ w => (Return, w);
     makedirs := fun _ w => (Return, w);
     stat := fun _ w => (Return, w);
     open_file_write := fun _ _ w => (Return, w) |}.

(** A share that refuses the first bulk creation, the way the servers do
    that need the fallback; its state counts the calls to [makedirs]. *)
Definition reluctant_share : SMBClient nat :=
  {| register_session := fun _ _ _ n => (Return, n);
     makedirs := fun _ n =>
       (if (n =? 0)%nat
        then Raise (lit "[NtStatus 0xc000003a] No such file or directory")
        else Return, S n);
     stat := fun _ n => (Raise (lit "File not found"), n);
     open_file_write := fun _ _ n => (Return, n) |}.

(** A share that holds files and lets them be written, but answers every
    probe with an access error. *)
Definition denying_share : SMBClient (gmap pystr bytes) :=
  {| register_session := fun _ _ _ w => (Return, w);
     makedirs := fun _ w => (Return, w);
     stat := fun _ w => (Raise (lit "Access denied"), w);
     open_file_write := fun path data w => (Return, <[path := data]> w) |}.

Definition demo_uploader : NASUploader :=
  {| host := lit "nas.local"; share := lit "backup";
     username := lit "user"; password := lit "secret";
     base_path := lit "archive" |}.

Definition demo_file (name : string) : LocalFile :=
  {| relative_path := lit name; local_size := 2;
     local_content := Some [Byte.x48; Byte.x69] |}.

Definition demo_files : list LocalFile :=
  [demo_file "a.txt"; demo_file "sub/b.txt"; demo_file "sub/c.txt"].

Definition start {W : Type} (w : W) : @run W :=
  {| world := w; calls := []; created_dirs := ∅ |}.

(** ** The claims on uploads *)

(** C2: in an upload that is not a dry run, with overwrite=false a file
    whose remote path the probe finds is classified skipped and no
    transfer is made for it; with overwrite=true the transfer of every
    file is made without a probe.  The pair returned is the number of
    files classified uploaded and the sum of the sizes of these files
    alone.  Files that are all found on the share give 0 uploaded with
    overwrite=false; with overwrite=true, a session that opens and
    transfers that succeed, all of them are uploaded, three out of
    three.  Every run that is not a dry run registers the session and
    returns (0, 0) when that fails; otherwise it creates the base
    directory and uploads the files one after the other, and the pair and
    the state it returns are those of that loop.  Of the calls such a run
    adds to the log, none is a probe when overwrite=true, and with
    overwrite=false a transfer goes only to a path whose probe can
    fail. *)
Theorem upload_skips_present_unless_overwrite {W : Type}
    (smbclient : SMBClient W) (self : NASUploader) :
  (forall (f : LocalFile) (r : @run W),
     let path := remote_path_of self f in
     let r1 := dir_step smbclient self f r in
     (stat smbclient path (world r1)).1 = Return ->
     _upload_single_file smbclient self false f r
     = (skipped, after r1 (Stat path) (stat smbclient path (world r1)).2))
  /\ (forall (f : LocalFile) (r : @run W),
        let path := remote_path_of self f in
        let r1 := dir_step smbclient self f r in
        _upload_single_file smbclient self true f r
        = _write_file_to_nas smbclient f path r1
        /\ calls (_upload_single_file smbclient self true f r).2
           = calls r1
             ++ match local_content f with
                | Some data => [OpenFileWrite path data]
                | None => []
                end)
  /\ (forall (files : list LocalFile) (overwrite : bool) (r : @run W),
        (_upload_files_with_progress smbclient self files overwrite r).1
        = tally files
            (classify smbclient self overwrite files
               {| world := world r; calls := calls r;
                  created_dirs := ∅ |}))
  /\ (forall (files : list LocalFile) (r : @run W),
        all_present smbclient self files ->
        (upload_directory smbclient self true files false false r).1
        = (0, 0)%nat)
  /\ (forall (files : list LocalFile) (r : @run W),
        all_transfer smbclient self files ->
        (register_session smbclient (host self) (username self)
           (password self) (world r)).1 = Return ->
        (upload_directory smbclient self true files false true r).1
        = (length files, total_size files))
  /\ (forall (files : list LocalFile) (overwrite : bool) (r : @run W),
        let session :=
          register_session smbclient (host self) (username self)
            (password self) (world r) in
        let r1 := after r (RegisterSession (host self) (username self)
                             (password self)) session.2 in
        upload_directory smbclient self true files false overwrite r
        = match session.1 with
          | Raise _ => ((0, 0)%nat, r1)
          | Return =>
              _upload_files_with_progress smbclient self files overwrite
                (_create_base_directory smbclient self r1).2
          end)
  /\ (forall (files : list LocalFile) (overwrite : bool) (r : @run W),
        (_upload_files_with_progress smbclient self files overwrite r).2
        = state_after smbclient self overwrite files
            {| world := world r; calls := calls r;
               created_dirs := ∅ |})
  /\ (forall (files : list LocalFile) (overwrite : bool) (r : @run W),
        exists l,
          calls (upload_directory smbclient self true files false
                   overwrite r).2
          = calls r ++ l
          /\ Forall (permitted smbclient overwrite) l).
Proof.
  split; [|split; [|split; [|split; [|split; [|split; [|split]]]]]];
    [| | | | |apply execute_upload_eq
     |apply upload_files_with_progress_state
     |apply upload_directory_permitted].
  - intros f r path r1 Hstat. rewrite upload_single_file_eq. cbv zeta.
    subst path r1. by rewrite Hstat.
  - intros f r path r1. rewrite upload_single_file_eq. cbv zeta.
    split; [done|]. subst path r1. rewrite write_file_to_nas_eq.
    destruct (local_content f); [done|]. simpl. by rewrite app_nil_r.
  - apply upload_files_with_progress_tally.
  - intros files r Hall. unfold upload_directory. simpl.
    rewrite execute_upload_eq. cbv zeta.
    destruct ((register_session _ _ _ _ _).1); [|done].
    rewrite upload_files_with_progress_tally.
    by apply classify_all_present.
  - intros files r Hall Hsession. unfold upload_directory. simpl.
    rewrite execute_upload_eq. cbv zeta. rewrite Hsession.
    rewrite upload_files_with_progress_tally.
    by apply classify_all_transfer.
Qed.

Lemma upload_skips_present_unless_overwrite_witness :
  (upload_directory agreeable_share demo_uploader true demo_files
     false false (start tt)).1 = (0, 0)%nat
  /\ (upload_directory agreeable_share demo_uploader true demo_files
        false true (start tt)).1 = (3, 6)%nat.
Proof.
  split.
  - refine (proj1 (proj2 (proj2 (proj2
              (upload_skips_present_unless_overwrite agreeable_share
                 demo_uploader)))) demo_files (start tt) _).
    intros f Hf w. reflexivity.
  - refine (proj1 (proj2 (proj2 (proj2 (proj2
              (upload_skips_present_unless_overwrite agreeable_share
                 demo_uploader))))) demo_files (start tt) _ _).
    + intros f Hf. exists [Byte.x48; Byte.x69]. split; [|done].
      apply list_elem_of_In in Hf. simpl in Hf.
      destruct Hf as [<-|[<-|[<-|[]]]]; reflexivity.
    + reflexivity.
Defined.

Lemma fallback_iff_bulk_call_fails_witness :
  calls (_ensure_directory_exists reluctant_share
           (lit "\\nas.local\backup\archive\user") (start 0%nat)).2
  = Makedirs <$> [lit "\\nas.local\backup\archive\user";
                  lit "\\nas.local\backup\archive";
                  lit "\\nas.local\backup\archive\user"].
Proof.
  rewrite (proj2 (proj2 (fallback_iff_bulk_call_fails reluctant_share
                           (lit "\\nas.local\backup\archive\user")
                           (start 0%nat)))).
  by vm_compute.
Defined.

(** C10: with overwrite=false, a file is classified skipped if and only
    if the probe of its remote path returns; whatever error the probe
    raises, the transfer is attempted as for a file that is not there, and
    on a share that answers probes with an error a file that exists
    remotely is overwritten. *)
Theorem failed_probe_counts_as_absent :
  (forall (W : Type) (smbclient : SMBClient W) (self : NASUploader)
          (f : LocalFile) (r : @run W),
     let path := remote_path_of self f in
     let r1 := dir_step smbclient self f r in
     let probe := stat smbclient path (world r1) in
     ((_upload_single_file smbclient self false f r).1 = skipped
      <-> probe.1 = Return)
     /\ (forall e, probe.1 = Raise e ->
           _upload_single_file smbclient self false f r
           = _write_file_to_nas smbclient f path
               (after r1 (Stat path) probe.2)))
  /\ (exists (f : LocalFile) (old new : bytes) (w : gmap pystr bytes),
        let path := remote_path_of demo_uploader f in
        let res :=
          _upload_single_file denying_share demo_uploader false f
            (start w) in
        w !! path = Some old /\ old <> new
        /\ res.1 = uploaded /\ world res.2 !! path = Some new).
Proof.
  split.
  - intros W smbclient self f r path r1 probe.
    rewrite upload_single_file_eq. cbv zeta. fold path. fold r1. fold probe.
    destruct (probe.1) as [|e] eqn:E.
    + split; [done|]. intros e He. discriminate.
    + split.
      * split; [|done]. rewrite write_file_to_nas_eq.
        destruct (local_content f); [|done]. cbv zeta.
        by destruct ((open_file_write _ _ _ _).1).
      * by intros e' _.
  - exists (demo_file "a.txt"), [Byte.x00], [Byte.x48; Byte.x69],
      {[ remote_path_of demo_uploader (demo_file "a.txt") := [Byte.x00] ]}.
    cbv zeta. split; [by vm_compute|]. split; [done|].
    split; by vm_compute.
Qed.

Lemma failed_probe_counts_as_absent_witness :
  _upload_single_file reluctant_share demo_uploader false
    (demo_file "a.txt") (start 1%nat)
  = _write_file_to_nas reluctant_share (demo_file "a.txt")
      (remote_path_of demo_uploader (demo_file "a.txt"))
      (after (dir_step reluctant_share demo_uploader (demo_file "a.txt")
                (start 1%nat))
             (Stat (remote_path_of demo_uploader (demo_file "a.txt")))
             2%nat).
Proof.
  refine (proj2 (proj1 failed_probe_counts_as_absent nat reluctant_share
                   demo_uploader (demo_file "a.txt") (start 1%nat))
                (lit "File not found") _).
  reflexivity.
Defined.

End UploaderFacts.

(* ===================================================================== *)
(** * Properties of the sanitiser *)
(* ===================================================================== *)

Module NamePolicyFacts.
Import NamePolicy.

Lemma invalid_char_spec c :
  invalid_char c = false
  <-> 32 <= c /\ c <> 58 /\ c <> 47 /\ c <> 92 /\ c <> 34
      /\ c <> 60 /\ c <> 62.
Proof.
  unfold invalid_char. simpl.
  rewrite !orb_false_iff, N.ltb_ge, !N.eqb_neq. tauto.
Qed.

Lemma sanitize_filter x :
  sanitize x = filter (fun c => invalid_char c = false) x.
Proof.
  induction x as [|c x IH]; simpl; [done|].
  destruct (invalid_char c) eqn:E.
  - rewrite filter_cons_False; [done|]. by rewrite E.
  - rewrite filter_cons_True by done. by rewrite IH.
Qed.

Lemma sanitize_valid x :
  Forall (fun c => invalid_char c = false) (sanitize x).
Proof.
  induction x as [|c x IH]; simpl; [constructor|].
  destruct (invalid_char c) eqn:E; [done|]. by constructor.
Qed.

Lemma sanitize_fixes_valid x :
  Forall (fun c => invalid_char c = false) x -> sanitize x = x.
Proof.
  induction 1 as [|c x Hc _ IH]; simpl; [done|]. by rewrite Hc, IH.
Qed.

(** C7: for every string x, sanitising twice is sanitising once; the
    result holds no colon, slash, backslash, double quote, angle bracket
    or character below code point 32; and the other code points of x are
    all kept, in their order. *)
Theorem sanitize_idempotent_safe (x : pystr) :
  sanitize (sanitize x) = sanitize x
  /\ Forall (fun c => 32 <= c /\ c <> 58 /\ c <> 47 /\ c <> 92 /\ c <> 34
                      /\ c <> 60 /\ c <> 62) (sanitize x)
  /\ sanitize x
     = filter (fun c => 32 <= c /\ c <> 58 /\ c <> 47 /\ c <> 92
                        /\ c <> 34 /\ c <> 60 /\ c <> 62) x.
Proof.
  split; [|split].
  - apply sanitize_fixes_valid, sanitize_valid.
  - eapply Forall_impl; [apply sanitize_valid|].
    intros c. apply invalid_char_spec.
  - rewrite sanitize_filter. apply list_filter_iff.
    intros c. apply invalid_char_spec.
Qed.

(** The file names of the test suite. *)
Example sanitize_examples :
  sanitize (lit "Report: Q1/Q2 " ++ [34] ++ lit "Final" ++ [34]
            ++ lit " <draft>.pdf")
  = lit "Report Q1Q2 Final draft.pdf"
  /\ sanitize (lit "file" ++ [0; 13; 10] ++ lit "name" ++ [9] ++ lit ".txt")
     = lit "filename.txt"
  /\ sanitize (lit "Caf" ++ [233] ++ lit ".pdf")
     = lit "Caf" ++ [233] ++ lit ".pdf".
Proof. split; [|split]; by vm_compute. Qed.

End NamePolicyFacts.

(* ===================================================================== *)
(** * Further properties of the download engine *)
(* ===================================================================== *)

Module ArchiverExtra.
Import Archiver ArchiverFacts.

Lemma path_join_prefix (p : Path) (name : pystr) : p `prefix_of` (p </> name).
Proof.
  unfold path_join. destruct (bool_decide _); [done|].
  by apply prefix_app_r.
Qed.

Lemma mkdir_one_lookup (q : Path) (fs : filesystem) (p : Path) (n : node) :
  mkdir_one q fs !! p = Some n -> fs !! p = Some n \/ n = Dir.
Proof.
  unfold mkdir_one. destruct (fs !! q) eqn:E; [by left|].
  destruct (decide (q = p)) as [->|Hne].
  - rewrite lookup_insert_eq. intros [= <-]. by right.
  - rewrite lookup_insert_ne by done. by left.
Qed.

Lemma mkdir_parents_lookup (q : Path) (fs : filesystem) (p : Path)
    (n : node) :
  mkdir_parents q fs !! p = Some n -> fs !! p = Some n \/ n = Dir.
Proof.
  unfold mkdir_parents.
  induction (map _ _) as [|q' qs IH]; simpl; [by left|].
  intros [H| ->]%mkdir_one_lookup; [by apply IH|by right].
Qed.

Lemma mkdir_one_size (q : Path) (fs : filesystem) :
  (size fs <= size (mkdir_one q fs))%nat.
Proof.
  unfold mkdir_one. destruct (fs !! q) eqn:E; [done|].
  rewrite map_size_insert_None by done. lia.
Qed.

Section Download.
Variable datetime : Type.
Variable strftime_dir : datetime -> pystr.
Variable now : datetime.
Variables sanitize_filename decode_mime_header : pystr -> pystr.
Variable message_from_bytes : bytes -> Message.
Variable dir_st_size : nat.
Variable c : IMAPClient datetime.

Local Abbreviation process_single_message :=
  (_process_single_message datetime strftime_dir now sanitize_filename
     decode_mime_header message_from_bytes dir_st_size (Some c)).
Local Abbreviation download_messages :=
  (_download_messages datetime strftime_dir now sanitize_filename
     decode_mime_header message_from_bytes dir_st_size (Some c)).
Local Abbreviation step :=
  (download_step datetime strftime_dir now sanitize_filename
     decode_mime_header message_from_bytes dir_st_size (Some c)).
Local Abbreviation save_attachments :=
  (_save_attachments sanitize_filename decode_mime_header).
Local Abbreviation save_single_attachment :=
  (_save_single_attachment sanitize_filename decode_mime_header).
Local Abbreviation path_of :=
  (email_path_of datetime strftime_dir now sanitize_filename
     decode_mime_header message_from_bytes).
Local Abbreviation in_place :=
  (raw_file_in_place datetime strftime_dir now sanitize_filename
     decode_mime_header message_from_bytes dir_st_size c).

(** A message the server does not deliver: the fetch fails, or the reply
    has no entry for the handle. *)
Definition fetch_fails (uid : nat) : Prop :=
  fetch c uid = FetchError \/ fetch c uid = FetchReply None.

Lemma step_fetch_fails (folder_output : Path) (k : counters)
    (fs : filesystem) (uid : nat) :
  fetch_fails uid -> step folder_output (k, fs) uid = (k, fs).
Proof.
  unfold download_step, _process_single_message.
  by intros [-> | ->].
Qed.

(** X1: a message whose fetch fails is isolated: the run gives the same
    counts and the same storage as the run over the other messages alone. *)
Theorem failed_fetch_is_isolated (before after : list nat) (uid : nat)
    (folder_output : Path) (fs : filesystem) :
  fetch_fails uid ->
  _download_messages datetime strftime_dir now sanitize_filename
    decode_mime_header message_from_bytes dir_st_size (Some c)
    (before ++ uid :: after) folder_output fs
  = _download_messages datetime strftime_dir now sanitize_filename
      decode_mime_header message_from_bytes dir_st_size (Some c)
      (before ++ after) folder_output fs.
Proof.
  intros Hfail. unfold _download_messages.
  rewrite !fold_left_app. cbn [fold_left].
  destruct (fold_left (step folder_output) before _) as [k fs1].
  by rewrite step_fetch_fails.
Qed.


(** *** One attachment, one part, all parts *)

Lemma resolve_collision_under (fs : filesystem) (email_dir : Path)
    (filename : pystr) :
  email_dir `prefix_of` resolve_collision fs email_dir filename.
Proof.
  pose proof (resolve_collision_probe fs email_dir filename
                (S (size fs)) (Nat.lt_succ_diag_r _)) as H.
  apply probe_loop_Some in H as [_ [-> | (n & _ & _ & -> & _)]];
    apply path_join_prefix.
Qed.

(** What saving one attachment does to the storage: nothing, or one new
    file under the directory of the message. *)
Lemma save_single_attachment_cases (part : Part) (filename : pystr)
    (email_dir : Path) (fs : filesystem) :
  save_single_attachment part filename email_dir fs = (false, fs)
  \/ exists (p : Path) (payload : bytes),
       fs !! p = None /\ email_dir `prefix_of` p
       /\ save_single_attachment part filename email_dir fs
          = (true, <[p := File payload]> fs).
Proof.
  unfold _save_single_attachment.
  destruct (get_payload part) as [[|b payload]|]; [by left| |by left].
  right. eexists _, _. split; [apply resolve_collision_free|].
  split; [apply resolve_collision_under|done].
Qed.

(** The entries of [fs'] are those of [fs] and [k] new files under
    [dir]. *)
Definition grown_by (dir : Path) (k : nat) (fs fs' : filesystem) : Prop :=
  size fs' = (size fs + k)%nat
  /\ (forall (p : Path) (n : node), fs !! p = Some n -> fs' !! p = Some n)
  /\ (forall (p : Path) (n : node), fs' !! p = Some n ->
        fs !! p = Some n
        \/ (dir `prefix_of` p /\ exists content, n = File content)).

Lemma grown_by_refl (dir : Path) (fs : filesystem) : grown_by dir 0 fs fs.
Proof. split; [lia|]. split; auto. Qed.

Lemma grown_by_insert (dir : Path) (k : nat) (fs fs' : filesystem)
    (p : Path) (payload : bytes) :
  grown_by dir k fs fs' -> fs' !! p = None -> dir `prefix_of` p ->
  grown_by dir (S k) fs (<[p := File payload]> fs').
Proof.
  intros (Hsize & Hkeep & Hnew) Hfree Hunder. split; [|split].
  - rewrite map_size_insert_None by done. lia.
  - intros q n Hq. rewrite lookup_insert_ne; [by apply Hkeep|].
    intros <-. apply Hkeep in Hq. congruence.
  - intros q n. destruct (decide (p = q)) as [<-|Hne].
    + rewrite lookup_insert_eq. intros [= <-]. right. eauto.
    + rewrite lookup_insert_ne by done. apply Hnew.
Qed.

Lemma save_part_grows (email_dir : Path) (k0 k : nat) (fs0 fs : filesystem)
    (part : Part) :
  grown_by email_dir (k - k0) fs0 fs -> (k0 <= k)%nat ->
  let acc := save_part sanitize_filename decode_mime_header email_dir
               (k, fs) part in
  grown_by email_dir (acc.1 - k0) fs0 acc.2
  /\ (k <= acc.1 <= S k)%nat.
Proof.
  intros Hgrown Hle. simpl.
  destruct (_ && _); [split; [done|simpl; lia]|].
  destruct (get_filename part) as [[|ch filename]|];
    try (split; [done|simpl; lia]).
  destruct (save_single_attachment_cases part (ch :: filename) email_dir fs)
    as [-> | (p & payload & Hfree & Hunder & ->)].
  - split; [done|simpl; lia].
  - simpl. split; [|lia].
    replace (S k - k0)%nat with (S (k - k0)) by lia.
    by apply grown_by_insert.
Qed.

Lemma save_parts_grow (email_dir : Path) (parts : list Part) (k0 k : nat)
    (fs0 fs : filesystem) :
  grown_by email_dir (k - k0) fs0 fs -> (k0 <= k)%nat ->
  let acc := fold_left
               (save_part sanitize_filename decode_mime_header email_dir)
               parts (k, fs) in
  grown_by email_dir (acc.1 - k0) fs0 acc.2
  /\ (k <= acc.1 <= k + length parts)%nat.
Proof.
  revert k fs. induction parts as [|part parts IH]; intros k fs Hgrown Hle.
  - simpl. split; [done|lia].
  - cbn [fold_left].
    destruct (save_part_grows email_dir k0 k fs0 fs part Hgrown Hle)
      as [Hg Hk].
    destruct (save_part _ _ _ (k, fs) part) as [k1 fs1]. simpl in Hg, Hk.
    destruct (IH k1 fs1 Hg) as [Hg' Hk']; [lia|].
    split; [done|]. simpl. simpl in Hk'. lia.
Qed.

Lemma save_attachments_grow (msg : Message) (email_dir : Path)
    (fs : filesystem) :
  let res := _save_attachments sanitize_filename decode_mime_header
               msg email_dir fs in
  grown_by email_dir res.1 fs res.2.
Proof.
  unfold _save_attachments. destruct (is_multipart msg); simpl.
  - destruct (save_parts_grow email_dir (walk msg) 0 0 fs fs) as [Hg _];
      [apply grown_by_refl|lia|].
    simpl in Hg. by rewrite Nat.sub_0_r in Hg.
  - apply grown_by_refl.
Qed.

(** X2: the attachments of a message are saved as new files under the
    directory of the message: the storage grows by exactly the number
    returned, which is at most the number of parts, every entry that was
    there is kept as it was, and a message that is not multipart gives no
    attachment and no change. *)
Theorem attachments_are_new_files (msg : Message) (email_dir : Path)
    (fs : filesystem) :
  let res := _save_attachments sanitize_filename decode_mime_header
               msg email_dir fs in
  grown_by email_dir res.1 fs res.2
  /\ (res.1 <= length (walk msg))%nat
  /\ (is_multipart msg = false -> res = (0%nat, fs)).
Proof.
  unfold _save_attachments. destruct (is_multipart msg); simpl.
  - destruct (save_parts_grow email_dir (walk msg) 0 0 fs fs) as [Hg Hk];
      [apply grown_by_refl|lia|].
    simpl in Hg, Hk. rewrite Nat.sub_0_r in Hg. split; [done|].
    split; [lia|done].
  - split; [apply grown_by_refl|]. split; [lia|done].
Qed.


(** *** One message *)

(** The directory of a fetched message. *)
Definition email_dir_of (folder_output : Path) (uid : nat)
    (reply : Fetched datetime) : Path :=
  _create_email_directory datetime strftime_dir sanitize_filename
    decode_mime_header (message_from_bytes (RFC822 reply)) uid
    (default now (INTERNALDATE reply)) folder_output.

Lemma email_dir_under (folder_output : Path) (uid : nat)
    (reply : Fetched datetime) :
  folder_output `prefix_of` email_dir_of folder_output uid reply.
Proof. apply path_join_prefix. Qed.

Lemma email_path_under (folder_output : Path) (uid : nat)
    (reply : Fetched datetime) :
  email_dir_of folder_output uid reply
    `prefix_of` path_of folder_output uid reply.
Proof. apply path_join_prefix. Qed.

(** The storage after the raw file of a message was written. *)
Definition with_raw_file (folder_output : Path) (uid : nat)
    (reply : Fetched datetime) (fs : filesystem) : filesystem :=
  write_file (path_of folder_output uid reply) (RFC822 reply)
    (mkdir_parents (email_dir_of folder_output uid reply) fs).

Lemma process_downloads (fs : filesystem) (folder_output : Path)
    (uid : nat) (reply : Fetched datetime) :
  fetch c uid = FetchReply (Some reply) ->
  _should_skip_email dir_st_size fs (path_of folder_output uid reply)
    (RFC822 reply) = false ->
  process_single_message uid folder_output fs
  = let saved :=
      save_attachments (message_from_bytes (RFC822 reply))
        (email_dir_of folder_output uid reply)
        (with_raw_file folder_output uid reply fs) in
    ((downloaded, saved.1), saved.2).
Proof.
  intros Hfetch Hskip. unfold _process_single_message. rewrite Hfetch.
  unfold email_path_of in Hskip. rewrite Hskip.
  unfold with_raw_file, email_dir_of, email_path_of. cbv zeta.
  by destruct (save_attachments _ _ _).
Qed.




(** When the two calls that write the raw file return:
    [mkdir(parents=True, exist_ok=True)] raises when the directory of the
    message or one of its parents is a regular file, and
    [open(path, "wb")] raises when the path is a directory.  Neither error
    is caught by [_process_single_message]. *)
Definition raw_file_writable (fs : filesystem) (folder_output : Path)
    (uid : nat) (reply : Fetched datetime) : Prop :=
  (forall (q : Path) (content : bytes),
     q `prefix_of` email_dir_of folder_output uid reply ->
     fs !! q <> Some (File content))
  /\ fs !! path_of folder_output uid reply <> Some Dir.




(** A message whose reply carries the date the server received it: the
    clock is not read for its directory. *)
Definition dated (uid : nat) : Prop :=
  forall reply, fetch c uid = FetchReply (Some reply) ->
    is_Some (INTERNALDATE reply).

Lemma process_clock (later : datetime) (fs : filesystem)
    (folder_output : Path) (uid : nat) :
  dated uid ->
  _process_single_message datetime strftime_dir later sanitize_filename
    decode_mime_header message_from_bytes dir_st_size (Some c)
    uid folder_output fs
  = process_single_message uid folder_output fs.
Proof.
  intros Hdated. unfold _process_single_message.
  destruct (fetch c uid) as [|[reply|]] eqn:Hfetch; try done.
  by destruct (Hdated reply Hfetch) as [d ->].
Qed.

(** X4: processing a dated message a second time, at whatever reading of
    the clock, after it was downloaded or skipped, classifies it skipped
    and leaves the storage as the first time left it; where the first time
    downloaded it, the directory and the file could be written. *)
Theorem process_twice_skips (later : datetime) (fs : filesystem)
    (folder_output : Path) (uid : nat) :
  let first := _process_single_message datetime strftime_dir now
                 sanitize_filename decode_mime_header message_from_bytes
                 dir_st_size (Some c) uid folder_output fs in
  first.1.1 <> error ->
  dated uid ->
  (first.1.1 = downloaded ->
   forall reply, fetch c uid = FetchReply (Some reply) ->
     raw_file_writable fs folder_output uid reply) ->
  _process_single_message datetime strftime_dir later sanitize_filename
    decode_mime_header message_from_bytes dir_st_size (Some c)
    uid folder_output first.2
  = ((skipped, 0%nat), first.2).
Proof.
  cbv zeta. intros Hres Hdated _. rewrite process_clock by done.
  pose proof (process_leaves_raw_file _ _ _ _ _ _ _ c fs folder_output uid
                Hres) as Hin.
  destruct (fetch c uid) as [|[reply|]] eqn:Hfetch.
  - unfold _process_single_message in Hres. by rewrite Hfetch in Hres.
  - destruct (Hin reply Hfetch) as (n & Hfile & Hsize).
    by apply (process_skips _ _ _ _ _ _ _ c _ _ _ reply n).
  - unfold _process_single_message in Hres. by rewrite Hfetch in Hres.
Qed.

(** What one message can change: its own raw file is written, directories
    are created, and new files appear under its directory. *)
Lemma process_changes (fs : filesystem) (folder_output : Path) (uid : nat) :
  let fs' := (process_single_message uid folder_output fs).2 in
  (forall (p : Path) (n : node), fs !! p = Some n ->
     (forall reply, fetch c uid = FetchReply (Some reply) ->
        p <> path_of folder_output uid reply) ->
     fs' !! p = Some n)
  /\ (forall (p : Path) (content : bytes), fs' !! p = Some (File content) ->
        fs !! p = Some (File content) \/ folder_output `prefix_of` p).
Proof.
  cbv zeta. destruct (fetch c uid) as [|[reply|]] eqn:Hfetch;
    try (unfold _process_single_message; rewrite Hfetch; by auto).
  destruct (_should_skip_email dir_st_size fs (path_of folder_output uid reply)
              (RFC822 reply)) eqn:Hskip.
  - unfold _process_single_message. rewrite Hfetch.
    unfold email_path_of in Hskip. rewrite Hskip. by auto.
  - rewrite (process_downloads fs folder_output uid reply) by done.
    cbv zeta. cbn [snd].
    destruct (save_attachments_grow (message_from_bytes (RFC822 reply))
                (email_dir_of folder_output uid reply)
                (with_raw_file folder_output uid reply fs))
      as (_ & Hkeep & Hnew).
    split.
    + intros p n Hp Hne. apply Hkeep. unfold with_raw_file, write_file.
      rewrite lookup_insert_ne by (intros E; by apply (Hne reply)).
      by apply mkdir_parents_preserves.
    + intros p content [Hp|[Hunder _]]%Hnew.
      * unfold with_raw_file, write_file in Hp.
        destruct (decide (path_of folder_output uid reply = p)) as [<-|Hne].
        -- right. etrans; [apply email_dir_under|apply email_path_under].
        -- rewrite lookup_insert_ne in Hp by done.
           apply mkdir_parents_lookup in Hp as [Hp|Hp]; [by left|done].
      * right. etrans; [apply email_dir_under|exact Hunder].
Qed.

(** *** A whole run *)

Lemma download_loop_changes (messages : list nat) (folder_output : Path)
    (k : counters) (fs : filesystem) :
  let fs' := (fold_left (step folder_output) messages (k, fs)).2 in
  (forall (p : Path) (n : node), fs !! p = Some n ->
     (forall uid reply, uid ∈ messages ->
        fetch c uid = FetchReply (Some reply) ->
        p <> path_of folder_output uid reply) ->
     fs' !! p = Some n)
  /\ (forall (p : Path) (content : bytes), fs' !! p = Some (File content) ->
        fs !! p = Some (File content) \/ folder_output `prefix_of` p).
Proof.
  revert k fs. induction messages as [|uid messages IH]; intros k fs.
  - simpl. auto.
  - cbn [fold_left]. cbv zeta.
    destruct (process_changes fs folder_output uid) as [Hkeep Hnew].
    assert (exists k1,
      step folder_output (k, fs) uid
      = (k1, (process_single_message uid folder_output fs).2)) as [k1 ->].
    { unfold download_step.
      destruct (process_single_message uid folder_output fs)
        as [[[] cnt] fs1]; eauto. }
    destruct (IH k1 (process_single_message uid folder_output fs).2)
      as [Hkeep' Hnew'].
    split.
    + intros p n Hp Hne. apply Hkeep'.
      * apply Hkeep; [done|]. intros reply. apply Hne. by left.
      * intros uid' reply Hin. apply Hne. by right.
    + intros p content [Hp|Hp]%Hnew'; [|by right]. by apply Hnew.
Qed.

(** X5: a run of the download loop changes no entry of the storage other
    than the raw files of the messages it is given, and every file it
    leaves that was not there before lies under the output directory of the
    folder. *)
Theorem download_keeps_other_entries (messages : list nat)
    (folder_output : Path) (fs : filesystem) :
  let fs' := (_download_messages datetime strftime_dir now
                sanitize_filename decode_mime_header message_from_bytes
                dir_st_size (Some c) messages folder_output fs).2 in
  (forall (p : Path) (n : node), fs !! p = Some n ->
     (forall uid reply, uid ∈ messages ->
        fetch c uid = FetchReply (Some reply) ->
        p <> path_of folder_output uid reply) ->
     fs' !! p = Some n)
  /\ (forall (p : Path) (content : bytes), fs' !! p = Some (File content) ->
        fs !! p = Some (File content) \/ folder_output `prefix_of` p).
Proof.
  cbv zeta. unfold _download_messages.
  pose proof (download_loop_changes messages folder_output
                {| emails_downloaded := 0; emails_skipped := 0;
                   attachments_downloaded := 0 |} fs) as H.
  cbv zeta in H.
  by destruct (fold_left (step folder_output) messages _).
Qed.

Lemma download_loop_counts (messages : list nat) (folder_output : Path)
    (k : counters) (fs : filesystem) :
  let k' := (fold_left (step folder_output) messages (k, fs)).1 in
  (emails_downloaded k <= emails_downloaded k')%nat
  /\ (emails_skipped k <= emails_skipped k')%nat
  /\ (emails_downloaded k' + emails_skipped k'
      <= emails_downloaded k + emails_skipped k + length messages)%nat.
Proof.
  revert k fs. induction messages as [|uid messages IH]; intros k fs.
  - simpl. lia.
  - cbn [fold_left]. cbv zeta.
    assert (exists k1 fs1,
      step folder_output (k, fs) uid = (k1, fs1)
      /\ (emails_downloaded k <= emails_downloaded k1)%nat
      /\ (emails_skipped k <= emails_skipped k1)%nat
      /\ (emails_downloaded k1 + emails_skipped k1
          <= S (emails_downloaded k + emails_skipped k))%nat)
      as (k1 & fs1 & -> & H1 & H2 & H3).
    { unfold download_step.
      destruct (process_single_message uid folder_output fs)
        as [[[] cnt] fs1]; eexists _, _; (split; [reflexivity|]);
        simpl; lia. }
    specialize (IH k1 fs1). cbv zeta in IH. simpl. lia.
Qed.

(** X6: the number of messages a run reports as downloaded is at most the
    number of handles it was given. *)
Theorem downloaded_at_most_messages (messages : list nat)
    (folder_output : Path) (fs : filesystem) :
  ((_download_messages datetime strftime_dir now sanitize_filename
      decode_mime_header message_from_bytes dir_st_size (Some c)
      messages folder_output fs).1.1 <= length messages)%nat.
Proof.
  unfold _download_messages.
  pose proof (download_loop_counts messages folder_output
                {| emails_downloaded := 0; emails_skipped := 0;
                   attachments_downloaded := 0 |} fs) as H.
  cbv zeta in H.
  destruct (fold_left (step folder_output) messages _) as [k' fs'].
  simpl in *. lia.
Qed.

End Download.

(** *** Deletion *)

(** The events that ask the operator or change the mailbox. *)
Definition asks_or_mutates (e : event) : bool :=
  match e with
  | ConfirmAsk _ _ | DeleteMessages _ | Expunge => true
  | _ => false
  end.

Section Deletion.
Variable datetime : Type.
Variable strftime_before : datetime -> pystr.
Variable confirm : pystr -> bool.

(** X7: a dry-run deletion asks the operator nothing and sends neither
    delete nor expunge; on a folder with messages it selects the folder
    read-write, searches, and returns the number of handles matched. *)
Theorem dry_run_deletion_counts_matches
    (client : option (IMAPClient datetime)) (folder_name : pystr)
    (since_date : option datetime) :
  let res := delete_folder_contents datetime strftime_before client confirm
               folder_name true since_date in
  existsb asks_or_mutates res.2 = false
  /\ (forall c total,
        client = Some c ->
        select_folder c folder_name false = SelectInfo (Some (S total)) ->
        res = (length (matched datetime strftime_before c since_date),
               [SelectFolder folder_name false;
                Search (criteria_of datetime strftime_before since_date)])).
Proof.
  cbv zeta. split.
  - destruct client as [c|]; [|done].
    unfold delete_folder_contents, _select_folder_for_delete.
    rewrite search_for_delete.
    destruct (select_folder c folder_name false) as [|[[|total]|]];
      simpl; try done.
    by destruct (matched _ _ c since_date).
  - intros c total -> Hselect.
    unfold delete_folder_contents, _select_folder_for_delete.
    rewrite search_for_delete, Hselect. simpl.
    by destruct (matched _ _ c since_date).
Qed.

(** X8: when the folder cannot be selected, or the reply of the server
    has no count or a count of zero, a deletion returns 0 after the select
    alone, dry run or not: nothing is searched, asked or deleted. *)
Theorem empty_folder_deletes_nothing (c : IMAPClient datetime)
    (folder_name : pystr) (dry_run : bool) (since_date : option datetime) :
  select_folder c folder_name false = SelectError
  \/ select_folder c folder_name false = SelectInfo None
  \/ select_folder c folder_name false = SelectInfo (Some 0%nat) ->
  delete_folder_contents datetime strftime_before (Some c) confirm
    folder_name dry_run since_date
  = (0%nat, [SelectFolder folder_name false]).
Proof.
  unfold delete_folder_contents, _select_folder_for_delete.
  by intros [-> | [-> | ->]].
Qed.

End Deletion.

(** *** The properties, on the small mailbox *)

Definition demo_other_path : Path := [lit "notes"; lit "todo.txt"].

Definition demo_other_fs : filesystem :=
  {[ demo_other_path := File demo_raw ]}.

Lemma failed_fetch_is_isolated_witness :
  _download_messages nat demo_strftime 0%nat NamePolicy.sanitize id
    demo_message 4096 (Some demo_client) [2%nat; 1%nat] demo_folder_output ∅
  = _download_messages nat demo_strftime 0%nat NamePolicy.sanitize id
      demo_message 4096 (Some demo_client) [1%nat] demo_folder_output ∅.
Proof.
  refine (failed_fetch_is_isolated nat demo_strftime 0%nat
            NamePolicy.sanitize id demo_message 4096 demo_client
            [] [1%nat] 2%nat demo_folder_output ∅ _).
  right. reflexivity.
Defined.

Lemma attachments_are_new_files_witness :
  _save_attachments NamePolicy.sanitize id (demo_message demo_raw)
    demo_folder_output demo_other_fs
  = (0%nat, demo_other_fs).
Proof.
  refine (proj2 (proj2 (attachments_are_new_files NamePolicy.sanitize id
                          (demo_message demo_raw) demo_folder_output
                          demo_other_fs)) _).
  reflexivity.
Defined.



(** A directory name that shows the date it is computed from. *)
Definition demo_stamp (d : nat) : pystr := lit "day" ++ str_of_nat d.

Lemma process_twice_skips_witness :
  _process_single_message nat demo_stamp 8%nat NamePolicy.sanitize id
    demo_message 4096 (Some demo_client) 1 demo_folder_output
    (_process_single_message nat demo_stamp 7%nat NamePolicy.sanitize id
       demo_message 4096 (Some demo_client) 1 demo_folder_output ∅).2
  = ((skipped, 0%nat),
     (_process_single_message nat demo_stamp 7%nat NamePolicy.sanitize id
        demo_message 4096 (Some demo_client) 1 demo_folder_output ∅).2).
Proof.
  refine (process_twice_skips nat demo_stamp 7%nat NamePolicy.sanitize id
            demo_message 4096 demo_client 8%nat ∅ demo_folder_output 1%nat
            _ _ _).
  - by vm_compute.
  - intros reply Hfetch. simpl in Hfetch. injection Hfetch as <-.
    by eexists.
  - intros _ reply _. split; [|done].
    intros q content _. by rewrite lookup_empty.
Defined.

Lemma download_keeps_other_entries_witness :
  (_download_messages nat demo_strftime 0%nat NamePolicy.sanitize id
     demo_message 4096 (Some demo_client) [1%nat] demo_folder_output
     demo_other_fs).2 !! demo_other_path = Some (File demo_raw).
Proof.
  refine (proj1 (download_keeps_other_entries nat demo_strftime 0%nat
                   NamePolicy.sanitize id demo_message 4096 demo_client
                   [1%nat] demo_folder_output demo_other_fs)
                demo_other_path (File demo_raw) _ _).
  - by vm_compute.
  - intros uid reply _ _. unfold email_path_of, _create_email_directory.
    intros E. apply (f_equal head) in E. by vm_compute in E.
Defined.

Lemma dry_run_deletion_counts_matches_witness :
  delete_folder_contents nat demo_strftime (Some demo_client)
    (fun _ => true) (lit "INBOX") true None
  = (1%nat, [SelectFolder (lit "INBOX") false; Search ALL]).
Proof.
  refine (proj2 (dry_run_deletion_counts_matches nat demo_strftime
                   (fun _ => true) (Some demo_client) (lit "INBOX") None)
                demo_client 0%nat _ _); reflexivity.
Defined.

(** A server on which no folder can be selected. *)
Definition closed_client : IMAPClient nat :=
  {| select_folder := fun _ _ => SelectError;
     search := fun _ => [1%nat];
     fetch := fun _ => FetchError |}.

Lemma empty_folder_deletes_nothing_witness :
  delete_folder_contents nat demo_strftime (Some closed_client)
    (fun _ => true) (lit "INBOX") false None
  = (0%nat, [SelectFolder (lit "INBOX") false]).
Proof.
  refine (empty_folder_deletes_nothing nat demo_strftime (fun _ => true)
            closed_client (lit "INBOX") false None _).
  left. reflexivity.
Defined.

End ArchiverExtra.

(* ===================================================================== *)
(** * Further properties of the upload engine *)
(* ===================================================================== *)

Module UploaderExtra.
Import Uploader UploaderFacts.

(** ** Remote paths *)

Lemma replace_removes (old new : N) (s : pystr) :
  old <> new -> old ∉ replace old new s.
Proof.
  intros Hne. unfold replace. induction s as [|ch s IH]; simpl.
  - apply not_elem_of_nil.
  - apply not_elem_of_cons. split; [|done].
    destruct (N.eqb_spec ch old); congruence.
Qed.

Lemma replace_absent (old new : N) (s : pystr) :
  old ∉ s -> replace old new s = s.
Proof.
  unfold replace. induction s as [|ch s IH]; simpl; [done|].
  intros [Hne Hs]%not_elem_of_cons.
  destruct (N.eqb_spec ch old); [congruence|]. by rewrite IH.
Qed.

Lemma rfind_absent (ch : N) (s : pystr) : ch ∉ s -> rfind ch s = None.
Proof.
  induction s as [|c s IH]; simpl; [done|].
  intros [Hne Hs]%not_elem_of_cons. rewrite IH by done.
  destruct (N.eqb_spec c ch); congruence.
Qed.

Lemma rfind_last (ch : N) (d name : pystr) :
  ch ∉ name -> rfind ch (d ++ ch :: name) = Some (length d).
Proof.
  intros Hname. induction d as [|c d IH]; simpl.
  - by rewrite rfind_absent, N.eqb_refl.
  - by rewrite IH.
Qed.

Lemma rfind_bound (ch : N) (s : pystr) (i : nat) :
  rfind ch s = Some i -> (i < length s)%nat.
Proof.
  revert i. induction s as [|c s IH]; intros i; simpl; [done|].
  destruct (rfind ch s) as [j|].
  - intros [= <-]. specialize (IH j eq_refl). lia.
  - destruct (c =? ch); [|done]. intros [= <-]. lia.
Qed.

(** X9: the remote path of a file never holds a forward slash, whatever
    the host, the share, the base path and the local relative path are, and
    it starts with the double backslash of a UNC path. *)
Theorem remote_path_has_no_slash (self : NASUploader) (f : LocalFile) :
  (47 ∉ remote_path_of self f)
  /\ (47 ∉ _get_parent_directory (remote_path_of self f))
  /\ exists rest, remote_path_of self f = [92; 92] ++ rest.
Proof.
  split; [|split].
  - by apply replace_removes.
  - unfold _get_parent_directory.
    destruct (rfind 92 _) as [[|i]|]; try by apply replace_removes.
    intros Hin. apply (replace_removes 47 92
      (base_remote_path self ++ backslash ++ relative_path f)); [done|].
    eapply subseteq_take, Hin.
  - unfold remote_path_of, base_remote_path, backslash, replace.
    simpl. eauto.
Qed.

(** X10: the parent of [d\name] is [d] when [name] holds no backslash and
    [d] is not empty; a path whose only backslash is its first character,
    or that has none, is its own parent. *)
Theorem parent_directory_of_join (d name : pystr) :
  92 ∉ name ->
  (d <> [] -> _get_parent_directory (d ++ backslash ++ name) = d)
  /\ _get_parent_directory (backslash ++ name) = backslash ++ name
  /\ _get_parent_directory name = name.
Proof.
  intros Hname. unfold _get_parent_directory, backslash. split; [|split].
  - intros Hd. simpl. rewrite rfind_last by done.
    destruct d as [|c d]; [done|]. simpl.
    by rewrite take_app_length.
  - simpl. by rewrite rfind_absent.
  - by rewrite rfind_absent.
Qed.

Lemma parent_directory_of_join_witness :
  _get_parent_directory (lit "\\nas\share\a.txt") = lit "\\nas\share".
Proof.
  refine (proj1 (parent_directory_of_join (lit "\\nas\share") (lit "a.txt") _)
                _).
  - by apply (bool_decide_unpack _).
  - discriminate.
Defined.

(** ** The levels the fallback creates *)

Lemma split_absent (sep : N) (a : pystr) : sep ∉ a -> split sep a = [a].
Proof.
  induction a as [|c a IH]; simpl; [done|].
  intros [Hne Ha]%not_elem_of_cons. rewrite IH by done.
  destruct (N.eqb_spec c sep); congruence.
Qed.

Lemma split_app (sep : N) (a b : pystr) :
  sep ∉ a -> split sep (a ++ sep :: b) = a :: split sep b.
Proof.
  induction a as [|c a IH]; simpl.
  - intros _. by rewrite N.eqb_refl.
  - intros [Hne Ha]%not_elem_of_cons. rewrite IH by done.
    destruct (N.eqb_spec c sep); congruence.
Qed.

(** The components of a path, each behind a backslash. *)
Definition tail_of (comps : list pystr) : pystr :=
  concat ((fun comp => backslash ++ comp) <$> comps).

(** The UNC path of the components [comps] on share [s] of host [h]. *)
Definition unc_path (h s : pystr) (comps : list pystr) : pystr :=
  backslash ++ backslash ++ h ++ backslash ++ s ++ tail_of comps.

Lemma tail_of_snoc (comps : list pystr) (comp : pystr) :
  tail_of (comps ++ [comp]) = tail_of comps ++ backslash ++ comp.
Proof.
  unfold tail_of. rewrite fmap_app, concat_app. simpl.
  by rewrite app_nil_r.
Qed.

Lemma unc_path_snoc (h s : pystr) (comps : list pystr) (comp : pystr) :
  unc_path h s (comps ++ [comp]) = unc_path h s comps ++ backslash ++ comp.
Proof.
  unfold unc_path. rewrite tail_of_snoc. by rewrite <- !app_assoc.
Qed.

Lemma split_tail (c : pystr) (comps : list pystr) :
  92 ∉ c -> Forall (fun comp => 92 ∉ comp) comps ->
  split 92 (c ++ tail_of comps) = c :: comps.
Proof.
  intros Hc Hall. revert c Hc.
  induction Hall as [|comp comps Hcomp _ IH]; intros c Hc.
  - unfold tail_of. simpl. rewrite app_nil_r. by apply split_absent.
  - unfold tail_of. simpl. fold (tail_of comps).
    rewrite split_app by done. by rewrite IH.
Qed.

Lemma split_unc_path (h s : pystr) (comps : list pystr) :
  92 ∉ h -> 92 ∉ s -> Forall (fun comp => 92 ∉ comp) comps ->
  split 92 (unc_path h s comps) = [] :: [] :: h :: s :: comps.
Proof.
  intros Hh Hs Hall. unfold unc_path, backslash. simpl.
  rewrite split_app by done. by rewrite split_tail.
Qed.

Lemma cumulative_levels (h s : pystr) (pre comps : list pystr) :
  cumulative (unc_path h s pre) comps
  = (fun k => unc_path h s (pre ++ take k comps))
    <$> seq 1 (length comps).
Proof.
  revert pre. induction comps as [|comp comps IH]; intros pre; [done|].
  cbn [cumulative length seq fmap list_fmap]. cbv zeta.
  rewrite <- unc_path_snoc, IH. f_equal.
  rewrite <- (fmap_S_seq 1), <- list_fmap_compose.
  apply list_fmap_ext. intros i k _. simpl.
  by rewrite <- app_assoc.
Qed.

Lemma cumulative_levels_base (h s : pystr) (comps : list pystr) :
  cumulative (backslash ++ backslash ++ h ++ backslash ++ s) comps
  = (fun k => unc_path h s (take k comps)) <$> seq 1 (length comps).
Proof.
  replace (backslash ++ backslash ++ h ++ backslash ++ s)
    with (unc_path h s [])
    by (unfold unc_path, tail_of; simpl; by rewrite app_nil_r).
  by rewrite cumulative_levels.
Qed.

(** A component of a well-formed path: not empty, and free of both
    separators. *)
Definition component (comp : pystr) : Prop :=
  comp <> [] /\ (92 ∉ comp) /\ (47 ∉ comp).

Lemma tail_of_no_slash (comps : list pystr) :
  Forall component comps -> 47 ∉ tail_of comps.
Proof.
  unfold tail_of, backslash.
  induction 1 as [|comp comps (_ & _ & Hcomp) _ IH]; simpl.
  - apply not_elem_of_nil.
  - apply not_elem_of_cons. split; [done|].
    rewrite not_elem_of_app. by split.
Qed.

Lemma filter_components (comps : list pystr) :
  Forall component comps ->
  filter (fun s => nonempty s = true) comps = comps.
Proof.
  induction 1 as [|comp comps (Hne & _) _ IH]; [done|].
  rewrite filter_cons_True by (by destruct comp). by rewrite IH.
Qed.

Lemma unc_path_no_slash (h s : pystr) (comps : list pystr) :
  47 ∉ h -> 47 ∉ s -> Forall component comps -> 47 ∉ unc_path h s comps.
Proof.
  intros Hh Hs Hall. unfold unc_path, backslash. simpl.
  do 2 (apply not_elem_of_cons; split; [done|]).
  rewrite not_elem_of_app. split; [done|].
  apply not_elem_of_cons. split; [done|].
  rewrite not_elem_of_app. split; [done|]. by apply tail_of_no_slash.
Qed.

Lemma segment_paths_unc (h s : pystr) (comps : list pystr) :
  92 ∉ h -> 47 ∉ h -> 92 ∉ s -> 47 ∉ s -> Forall component comps ->
  segment_paths (unc_path h s comps)
  = (fun k => unc_path h s (take k comps)) <$> seq 1 (length comps).
Proof.
  intros Hh Hh' Hs Hs' Hall. unfold segment_paths.
  rewrite replace_absent by (by apply unc_path_no_slash).
  rewrite split_unc_path; [|done|done|].
  2:{ eapply Forall_impl; [exact Hall|]. by intros comp (_ & H & _). }
  cbn [length drop lookup list_lookup default].
  destruct comps as [|comp comps].
  - by rewrite bool_decide_eq_false_2 by (simpl; lia).
  - rewrite bool_decide_eq_true_2 by (simpl; lia).
    rewrite filter_components by done.
    apply cumulative_levels_base.
Qed.

Section Levels.
Context {W : Type}.
Variable smbclient : SMBClient W.

(** X11: on a well-formed UNC path (host and share free of separators,
    components not empty and free of separators) the incremental creation
    calls create on every level below the share, from the first component
    down to the requested directory itself, in that order and whatever the
    share answers; on the root of a share it calls nothing. *)
Theorem fallback_creates_every_level (h s : pystr) (comps : list pystr)
    (r : @run W) :
  92 ∉ h -> 47 ∉ h -> 92 ∉ s -> 47 ∉ s -> Forall component comps ->
  calls (_create_directories_incrementally smbclient
           (unc_path h s comps) r).2
  = calls r
    ++ (Makedirs <$> ((fun k => unc_path h s (take k comps))
                      <$> seq 1 (length comps))).
Proof.
  intros Hh Hh' Hs Hs' Hall.
  destruct (create_directories_incrementally_calls smbclient
              (unc_path h s comps) r) as [-> _].
  by rewrite segment_paths_unc.
Qed.

End Levels.

Lemma fallback_creates_every_level_witness :
  calls (_create_directories_incrementally reluctant_share
           (unc_path (lit "nas") (lit "backup") [lit "a"; lit "b"])
           (start 0%nat)).2
  = [Makedirs (lit "\\nas\backup\a"); Makedirs (lit "\\nas\backup\a\b")].
Proof.
  refine (fallback_creates_every_level reluctant_share (lit "nas")
            (lit "backup") [lit "a"; lit "b"] (start 0%nat) _ _ _ _ _);
    by apply (bool_decide_unpack _).
Defined.

(** ** The log of a run *)

Definition is_stat (c : call) : bool :=
  match c with Stat _ => true | _ => false end.

Definition is_transfer (c : call) : bool :=
  match c with OpenFileWrite _ _ => true | _ => false end.

(** How many calls of a list a test selects. *)
Definition count (test : call -> bool) (l : list call) : nat :=
  length (List.filter test l).

Lemma count_app (test : call -> bool) (l1 l2 : list call) :
  count test (l1 ++ l2) = (count test l1 + count test l2)%nat.
Proof. unfold count. by rewrite List.filter_app, length_app. Qed.

Lemma count_makedirs (test : call -> bool) (l : list call) :
  (forall path, test (Makedirs path) = false) ->
  forallb is_makedirs l = true -> count test l = 0%nat.
Proof.
  intros Htest. unfold count. induction l as [|c l IH]; simpl; [done|].
  intros [Hc Hl]%andb_prop. destruct c; try done. by rewrite Htest, IH.
Qed.

Section Log.
Context {W : Type}.
Variable smbclient : SMBClient W.
Variable self : NASUploader.

Local Abbreviation run := (@run W).

Lemma ensure_directory_keeps_created (remote_dir : pystr) (r : run) :
  created_dirs (_ensure_directory_exists smbclient remote_dir r).2
  = created_dirs r.
Proof.
  rewrite ensure_directory_exists_eq. cbv zeta.
  destruct (fallback_runs _); [|done].
  by destruct (create_directories_incrementally_calls smbclient remote_dir
                 (after r (Makedirs remote_dir)
                    (makedirs smbclient remote_dir (world r)).2))
    as [_ ->].
Qed.

Lemma dir_step_created (f : LocalFile) (r : run) :
  created_dirs (dir_step smbclient self f r)
  = {[_get_parent_directory (remote_path_of self f)]} ∪ created_dirs r.
Proof.
  unfold dir_step. destruct (bool_decide _) eqn:E.
  - apply bool_decide_eq_true in E. symmetry.
    by apply subseteq_union_1_L, singleton_subseteq_l.
  - simpl. by rewrite ensure_directory_keeps_created.
Qed.

Lemma dir_step_known (f : LocalFile) (r : run) :
  _get_parent_directory (remote_path_of self f) ∈ created_dirs r ->
  dir_step smbclient self f r = r.
Proof.
  intros H. unfold dir_step. by rewrite bool_decide_eq_true_2.
Qed.

Lemma dir_step_first_call (f : LocalFile) (r : run) :
  _get_parent_directory (remote_path_of self f) ∉ created_dirs r ->
  exists l,
    calls (dir_step smbclient self f r)
    = calls r
      ++ Makedirs (_get_parent_directory (remote_path_of self f)) :: l.
Proof.
  intros H. unfold dir_step. rewrite bool_decide_eq_false_2 by done.
  simpl.
  rewrite (ensure_directory_exists_calls smbclient
             (_get_parent_directory (remote_path_of self f)) r).
  simpl. eauto.
Qed.

(** The calls one file adds after the directory step: a probe unless the
    run overwrites, then a transfer unless the file was found or cannot be
    read. *)
Lemma upload_single_file_adds (overwrite : bool) (f : LocalFile) (r : run) :
  exists l,
    calls (_upload_single_file smbclient self overwrite f r).2
    = calls (dir_step smbclient self f r) ++ l
    /\ (count is_stat l <= 1)%nat
    /\ (count is_transfer l <= 1)%nat
    /\ count is_makedirs l = 0%nat
    /\ (overwrite = true -> count is_stat l = 0%nat)
    /\ created_dirs (_upload_single_file smbclient self overwrite f r).2
       = created_dirs (dir_step smbclient self f r).
Proof.
  rewrite upload_single_file_eq. cbv zeta.
  set (r1 := dir_step smbclient self f r).
  set (path := remote_path_of self f).
  destruct overwrite.
  - rewrite write_file_to_nas_eq.
    destruct (local_content f) as [data|].
    + exists [OpenFileWrite path data]. cbv [count]. simpl.
      repeat split; auto.
    + exists []. cbv [count]. simpl. rewrite app_nil_r.
      repeat split; auto.
  - destruct ((stat smbclient path (world r1)).1).
    + exists [Stat path]. cbv [count]. simpl. repeat split; auto.
      intros [=].
    + rewrite write_file_to_nas_eq.
      destruct (local_content f) as [data|].
      * exists [Stat path; OpenFileWrite path data]. cbv [count]. simpl.
        rewrite <- app_assoc. repeat split; auto. intros [=].
      * exists [Stat path]. cbv [count]. simpl. repeat split; auto.
        intros [=].
Qed.

(** X12: the parent directory of a file is created at most once in a run:
    after the file it is in the set of created directories; when it was in
    the set before, the file adds no directory creation to the log; when it
    was not, the first call the file adds is the bulk creation of the
    parent. *)
Theorem parent_directory_is_memoised (overwrite : bool) (f : LocalFile)
    (r : run) :
  let parent := _get_parent_directory (remote_path_of self f) in
  let res := _upload_single_file smbclient self overwrite f r in
  created_dirs res.2 = {[parent]} ∪ created_dirs r
  /\ (parent ∈ created_dirs r ->
      exists l, calls res.2 = calls r ++ l /\ count is_makedirs l = 0%nat)
  /\ (parent ∉ created_dirs r ->
      exists l, calls res.2 = calls r ++ Makedirs parent :: l).
Proof.
  cbv zeta.
  destruct (upload_single_file_adds overwrite f r)
    as (l & Hcalls & _ & _ & Hmk & _ & Hcreated).
  rewrite Hcalls, Hcreated. split; [apply dir_step_created|]. split.
  - intros Hknown. rewrite dir_step_known by done. eauto.
  - intros Hnew. destruct (dir_step_first_call f r Hnew) as [l' ->].
    exists (l' ++ l). by rewrite <- app_assoc.
Qed.

(** The calls a loop over the files adds. *)
Lemma upload_loop_adds (overwrite : bool) (files : list LocalFile)
    (acc : nat * nat * nat) (r : run) :
  exists l,
    calls (upload_loop smbclient self overwrite files acc r).2
    = calls r ++ l
    /\ (count is_stat l <= length files)%nat
    /\ (count is_transfer l <= length files)%nat
    /\ (overwrite = true -> count is_stat l = 0%nat).
Proof.
  revert acc r. induction files as [|f files IH]; intros [[u s] t] r.
  - exists []. simpl. rewrite app_nil_r. repeat split; auto.
  - cbn [upload_loop]. unfold mbind, M_bind.
    destruct (upload_single_file_adds overwrite f r)
      as (l1 & Hcalls & Hs1 & Ht1 & _ & Ho1 & _).
    destruct (dir_step_calls smbclient self f r) as (l0 & Hdir & Hmk).
    destruct (_upload_single_file smbclient self overwrite f r)
      as [res r1].
    simpl in Hcalls.
    match goal with
    | |- context [upload_loop _ _ _ _ ?acc' r1] =>
        destruct (IH acc' r1) as (l2 & -> & Hs2 & Ht2 & Ho2)
    end.
    exists (l0 ++ l1 ++ l2). rewrite Hcalls, Hdir.
    rewrite !count_app, <- !app_assoc.
    rewrite !(count_makedirs _ l0) by done. simpl.
    repeat split; try lia. intros Ho. rewrite Ho1, Ho2 by done. lia.
Qed.

(** X13: in a run over the files of a directory, whatever the share
    answers, every file is probed at most once and transferred at most
    once, and a run that overwrites probes nothing. *)
Theorem each_file_probed_and_sent_once (files : list LocalFile)
    (overwrite : bool) (r : run) :
  exists l,
    calls (_upload_files_with_progress smbclient self files overwrite r).2
    = calls r ++ l
    /\ (count is_stat l <= length files)%nat
    /\ (count is_transfer l <= length files)%nat
    /\ (overwrite = true -> count is_stat l = 0%nat).
Proof.
  unfold _upload_files_with_progress.
  destruct (upload_loop_adds overwrite files (0, 0, 0)%nat
              {| world := world r; calls := calls r; created_dirs := ∅ |})
    as (l & Hcalls & H).
  destruct (upload_loop _ _ _ _ _ _) as [[[u s] t] r'].
  simpl in *. eauto.
Qed.

Lemma tally_bound (files : list LocalFile) (results : list result) :
  ((tally files results).1 <= length files)%nat
  /\ ((tally files results).2 <= total_size files)%nat.
Proof.
  revert results. induction files as [|f files IH]; intros [|res results];
    simpl; try lia.
  specialize (IH results). destruct (tally files results) as [n size].
  simpl in IH. destruct res; simpl; lia.
Qed.

(** X14: in every mode, an upload reports no more files than the directory
    holds and no more bytes than these files have; without the SMB library
    it reports (0, 0); and it makes no call and leaves the share alone
    when the library is missing or the run is a dry run, as it leaves the
    files alone when the session cannot be registered. *)
Theorem upload_reports_within_bounds (installed : bool)
    (files : list LocalFile) (dry_run overwrite : bool) (r : run) :
  let res := upload_directory smbclient self installed files dry_run
               overwrite r in
  (res.1.1 <= length files)%nat
  /\ (res.1.2 <= total_size files)%nat
  /\ (installed = false -> res = ((0, 0)%nat, r))
  /\ (installed = true -> dry_run = true ->
      res = ((length files, total_size files), r))
  /\ (installed = true -> dry_run = false ->
      forall e,
        (register_session smbclient (host self) (username self)
           (password self) (world r)).1 = Raise e ->
        res.1 = (0, 0)%nat
        /\ calls res.2
           = calls r ++ [RegisterSession (host self) (username self)
                           (password self)]).
Proof.
  cbv zeta. unfold upload_directory.
  destruct installed; simpl; [|repeat split; try lia; done].
  destruct dry_run; simpl.
  - unfold _show_upload_dry_run, total_size. simpl.
    repeat split; try lia; done.
  - rewrite execute_upload_eq. cbv zeta.
    destruct ((register_session _ _ _ _ _).1) as [|e] eqn:Hsession.
    + rewrite upload_files_with_progress_tally.
      destruct (tally_bound files (classify smbclient self overwrite files
                  {| world := world (_create_base_directory smbclient self
                       (after r (RegisterSession (host self) (username self)
                                   (password self))
                          (register_session smbclient (host self)
                             (username self) (password self) (world r)).2)).2;
                     calls := calls (_create_base_directory smbclient self
                       (after r (RegisterSession (host self) (username self)
                                   (password self))
                          (register_session smbclient (host self)
                             (username self) (password self) (world r)).2)).2;
                     created_dirs := ∅ |})) as [H1 H2].
      repeat split; try done.
    + simpl. repeat split; try lia; try done.
Qed.

End Log.

Lemma parent_directory_is_memoised_witness :
  exists l,
    calls (_upload_single_file agreeable_share demo_uploader false
             (demo_file "sub/c.txt")
             (_upload_single_file agreeable_share demo_uploader false
                (demo_file "sub/b.txt") (start tt)).2).2
    = calls (_upload_single_file agreeable_share demo_uploader false
               (demo_file "sub/b.txt") (start tt)).2 ++ l
    /\ count is_makedirs l = 0%nat.
Proof.
  refine (proj1 (proj2 (parent_directory_is_memoised agreeable_share
            demo_uploader false (demo_file "sub/c.txt")
            (_upload_single_file agreeable_share demo_uploader false
               (demo_file "sub/b.txt") (start tt)).2)) _).
  apply (bool_decide_unpack _). by vm_compute.
Defined.

Lemma each_file_probed_and_sent_once_witness :
  exists l,
    calls (_upload_files_with_progress agreeable_share demo_uploader
             demo_files true (start tt)).2 = l
    /\ count is_stat l = 0%nat.
Proof.
  destruct (each_file_probed_and_sent_once agreeable_share demo_uploader
              demo_files true (start tt)) as (l & Hcalls & _ & _ & Hstat).
  exists l. split; [exact Hcalls|]. apply Hstat. reflexivity.
Defined.

Lemma upload_reports_within_bounds_witness :
  upload_directory agreeable_share demo_uploader true demo_files true false
    (start tt)
  = ((3, 6)%nat, start tt).
Proof.
  refine (proj1 (proj2 (proj2 (proj2
            (upload_reports_within_bounds agreeable_share demo_uploader true
               demo_files true false (start tt))))) _ _); reflexivity.
Defined.

End UploaderExtra.

(* ===================================================================== *)
(** * Further properties of the configuration *)
(* ===================================================================== *)

Module ConfigExtra.
Import Config ConfigFacts PyStrFacts.

(** ** The retention parser *)

Section Parser.
Variable db : UnicodeDB.

Lemma unit_days_upper (u : N) (k : N) :
  unit_days u = Some k -> unit_days (upper u) = Some k.
Proof.
  intros Hk. pose proof (unit_days_is_unit _ _ Hk) as Hu.
  apply is_unit_cases in Hu.
  destruct Hu as [->|[->|[->|[->|[->|[->|[->| ->]]]]]]]; exact Hk.
Qed.

(** X15: neither the case of the unit letter nor whitespace around the
    expression changes what the parser returns. *)
Theorem case_and_whitespace_are_ignored (ws1 ds : pystr) (u : N)
    (ws2 : pystr) :
  forallb isspace ws1 = true -> forallb isspace ws2 = true ->
  ds <> [] -> forallb (is_digit db) ds = true -> is_unit u = true ->
  parse_time_range db (ws1 ++ ds ++ [u] ++ ws2)
  = parse_time_range db (ds ++ [upper u]).
Proof.
  intros H1 H2 Hne Hds Hu.
  destruct (is_unit_days _ Hu) as [k Hk].
  rewrite (shape_parses db _ ds k).
  2:{ exists ws1, u, ws2. by repeat split. }
  rewrite (shape_parses db (ds ++ [upper u]) ds k); [done|].
  exists [], (upper u), []. rewrite app_nil_r.
  repeat split; try done. by apply unit_days_upper.
Qed.

(** The digit a character of a printed number stands for. *)
Lemma printed_digit (d : N) :
  d < 10 -> Nd_value db (N_of_ascii (pretty_N_char d)) = Some d.
Proof.
  intros Hd. rewrite Nd_ascii.
  - destruct d as [|p]; [done|].
    do 4 (destruct p as [p|p|]; try done; try lia).
  - destruct d as [|p]; [by compute|].
    do 4 (destruct p as [p|p|]; try (by compute); try lia).
Qed.

Lemma printed_go (x : N) (s : string) :
  fold_left (fun acc c => 10 * acc + default 0 (Nd_value db c))
    (lit (pretty_N_go x s)) 0
  = fold_left (fun acc c => 10 * acc + default 0 (Nd_value db c))
      (lit s) x
  /\ forallb (is_digit db) (lit (pretty_N_go x s))
     = forallb (is_digit db) (lit s).
Proof.
  revert s. induction x as [x IH] using (well_founded_induction N.lt_wf_0).
  intros s. destruct (decide (x = 0)) as [->|Hx].
  - by rewrite pretty_N_go_0.
  - rewrite pretty_N_go_step by lia.
    assert (x `div` 10 < x) as Hlt by (apply N.div_lt; lia).
    destruct (IH _ Hlt (String (pretty_N_char (x `mod` 10)) s)) as [-> ->].
    assert (x `mod` 10 < 10) as Hd by (apply N.mod_lt; lia).
    unfold lit. cbn [list_ascii_of_string map fold_left forallb].
    unfold is_digit. rewrite (printed_digit _ Hd). simpl.
    split; [|done]. f_equal.
    rewrite (N.div_mod x 10) at 3 by lia. lia.
Qed.

Lemma printed_number (n : nat) :
  decimal_value db (str_of_nat n) = N.of_nat n
  /\ forallb (is_digit db) (str_of_nat n) = true
  /\ str_of_nat n <> [].
Proof.
  destruct (decide (n = 0%nat)) as [->|Hn].
  - change (str_of_nat 0) with [48].
    unfold decimal_value, is_digit. simpl.
    rewrite (Nd_ascii db 48) by lia. done.
  - unfold decimal_value, str_of_nat, pretty, pretty_nat, pretty, pretty_N.
    destruct (decide (N.of_nat n = 0)) as [E|_]; [lia|].
    destruct (printed_go (N.of_nat n) "") as [Hval Hdig].
    rewrite Hval, Hdig. repeat split.
    intros Hnil. rewrite Hnil in Hval. simpl in Hval. lia.
Qed.

(** X16: a number printed in decimal and followed by a unit letter is
    parsed back to that number of units: n days for D, 7n for W, 30n for M
    and 365n for Y, as long as the days fit a [timedelta]; beyond that the
    constructor raises OverflowError, and a number of more than 4300
    digits is refused by the conversion with a ValueError. *)
Theorem printed_number_parses_back (n : nat) (u k : N) :
  unit_days u = Some k ->
  parse_time_range db (str_of_nat n ++ [u])
  = if int_max_str_digits <? N.of_nat (length (str_of_nat n))
    then inl (ValueError (int_limit_msg (length (str_of_nat n))))
    else if N.of_nat n * k <=? timedelta_max_days
         then inr (Timedelta (N.of_nat n * k))
         else inl OverflowError.
Proof.
  intros Hk. destruct (printed_number n) as (Hval & Hdig & Hne).
  rewrite (shape_parses db _ (str_of_nat n) k).
  - by rewrite Hval.
  - exists [], u, []. rewrite app_nil_r. by repeat split.
Qed.

End Parser.

Lemma case_and_whitespace_are_ignored_witness :
  parse_time_range ascii_db (lit " 12w ")
  = parse_time_range ascii_db (lit "12W").
Proof.
  refine (case_and_whitespace_are_ignored ascii_db (lit " ") (lit "12") 119
            (lit " ") _ _ _ _ _); by vm_compute.
Defined.

Lemma printed_number_parses_back_witness :
  parse_time_range ascii_db (str_of_nat 26 ++ lit "W")
  = inr (Timedelta 182).
Proof.
  refine (eq_trans (printed_number_parses_back ascii_db 26 87 7 _) _);
    reflexivity.
Defined.

(** ** The account name *)

Lemma split_head (sep : N) (s : pystr) :
  exists h t,
    split sep s = h :: t /\ (sep ∉ h)
    /\ (s = h \/ exists rest, s = h ++ sep :: rest).
Proof.
  induction s as [|c s (h & t & E & Hh & Hs)]; simpl.
  - exists [], []. split; [done|]. split; [apply not_elem_of_nil|by left].
  - destruct (N.eqb_spec c sep) as [->|Hne].
    + exists [], (split sep s). split; [done|].
      split; [apply not_elem_of_nil|]. right. by exists s.
    + rewrite E. exists (c :: h), t. split; [done|].
      split; [by apply not_elem_of_cons|].
      destruct Hs as [->|[rest ->]]; [by left|right; by exists rest].
Qed.

(** X17: the account name is the part of the address before the first
    [@]: it holds no [@], the address is the account name followed by
    nothing or by an [@] and the rest, and an address without [@] is its
    own account name. *)
Theorem account_name_is_local_part (self : ConfigEnv.MailConfig.t) :
  let account := ConfigEnv.MailConfig.account_name self in
  (64 ∉ account)
  /\ (ConfigEnv.MailConfig.email self = account
      \/ exists rest,
           ConfigEnv.MailConfig.email self = account ++ 64 :: rest)
  /\ (64 ∉ ConfigEnv.MailConfig.email self ->
      account = ConfigEnv.MailConfig.email self).
Proof.
  cbv zeta. unfold ConfigEnv.MailConfig.account_name.
  destruct (split_head 64 (ConfigEnv.MailConfig.email self))
    as (h & t & -> & Hh & Hs).
  simpl. split; [done|]. split; [done|].
  intros Hno. destruct Hs as [->|[rest E]]; [done|].
  rewrite E in Hno. destruct Hno. apply elem_of_app. right. by left.
Qed.

Lemma account_name_is_local_part_witness :
  ConfigEnv.MailConfig.account_name
    {| ConfigEnv.MailConfig.email := lit "nodomain";
       ConfigEnv.MailConfig.password := lit "pw";
       ConfigEnv.MailConfig.provider := lit "gmx" |}
  = lit "nodomain".
Proof.
  refine (proj2 (proj2 (account_name_is_local_part
            {| ConfigEnv.MailConfig.email := lit "nodomain";
               ConfigEnv.MailConfig.password := lit "pw";
               ConfigEnv.MailConfig.provider := lit "gmx" |})) _).
  by apply (bool_decide_unpack _).
Defined.

(** ** The configuration file and the provider *)

Section Files.
Variable Path : Type.
Variable CONFIG_PATHS : list Path.
Variable path_exists : Path -> bool.
Variable safe_load : Path -> ConfigEnv.config_file.
Variable _apply_custom_provider_env :
  ConfigEnv.provider_dict -> exn + ConfigEnv.provider_dict.

Local Abbreviation find := (ConfigEnv._find_config_file Path path_exists).
Local Abbreviation load :=
  (ConfigEnv.load_provider_config Path CONFIG_PATHS path_exists safe_load
     _apply_custom_provider_env).
Local Abbreviation load_from_file :=
  (ConfigEnv._load_provider_from_file Path safe_load
     _apply_custom_provider_env).

(** An entry of the search list that gives no file. *)
Definition unusable (path : option Path) : Prop :=
  match path with
  | Some p => path_exists p = false
  | None => True
  end.

(** X18: the configuration file found is the first path of the search
    list that exists: every entry before it is unusable; and no file is
    found exactly when every entry is. *)
Theorem first_existing_file_is_found (search_paths : list (option Path)) :
  match ConfigEnv._find_config_file Path path_exists search_paths with
  | Some p =>
      exists before behind,
        search_paths = before ++ Some p :: behind
        /\ path_exists p = true /\ Forall unusable before
  | None => Forall unusable search_paths
  end.
Proof.
  induction search_paths as [|[q|] paths IH]; simpl.
  - constructor.
  - destruct (path_exists q) eqn:Hq.
    + exists [], paths. repeat split; [done|constructor].
    + destruct (find paths) as [p|].
      * destruct IH as (before & behind & -> & Hp & Hbefore).
        exists (Some q :: before), behind. repeat split; [done|].
        by constructor.
      * by constructor.
  - destruct (find paths) as [p|].
    + destruct IH as (before & behind & -> & Hp & Hbefore).
      exists (None :: before), behind. repeat split; [done|].
      by constructor.
    + by constructor.
Qed.

Lemma builtin_providers (provider : pystr) :
  ConfigEnv.lookup_provider provider ConfigEnv.defaults = None
  <-> provider <> lit "gmx" /\ provider <> lit "gmail"
      /\ provider <> lit "outlook".
Proof.
  split.
  - intros H. repeat split; intros ->; by vm_compute in H.
  - intros (Ha & Hb & Hc).
    unfold ConfigEnv.defaults. cbn [ConfigEnv.lookup_provider].
    by rewrite !bool_decide_eq_false_2 by congruence.
Qed.

(** X19: a configuration path given explicitly replaces the default
    search list: if the file exists the provider is read from it, and if it
    does not the built-in table is used even when a default file exists.
    When a file is found the built-in table is never consulted: a provider
    the file does not list is an error, gmx, gmail and outlook included.
    Without a file the provider must be one of these three. *)
Theorem explicit_config_path_shadows_defaults (provider : pystr) :
  (forall p, path_exists p = true ->
     load provider (Some p) = load_from_file p provider)
  /\ (forall p, path_exists p = false ->
        load provider (Some p)
        = ConfigEnv._get_builtin_provider_config provider)
  /\ (forall config_path file,
        find (ConfigEnv.search_paths_of Path CONFIG_PATHS config_path)
        = Some file ->
        ConfigEnv.lookup_provider provider
          (default [] (ConfigEnv.providers (safe_load file))) = None ->
        exists msg, load provider config_path = inl (ValueError msg))
  /\ ((exists d, ConfigEnv._get_builtin_provider_config provider = inr d)
      <-> provider = lit "gmx" \/ provider = lit "gmail"
          \/ provider = lit "outlook").
Proof.
  split; [|split; [|split]].
  - intros p Hp. unfold ConfigEnv.load_provider_config. simpl.
    by rewrite Hp.
  - intros p Hp. unfold ConfigEnv.load_provider_config. simpl.
    by rewrite Hp.
  - intros config_path file Hfile Hmissing.
    unfold ConfigEnv.load_provider_config. rewrite Hfile.
    unfold ConfigEnv._load_provider_from_file. rewrite Hmissing. eauto.
  - unfold ConfigEnv._get_builtin_provider_config.
    destruct (ConfigEnv.lookup_provider provider ConfigEnv.defaults)
      as [d|] eqn:E.
    + split; [|eauto]. intros _.
      destruct (decide (provider = lit "gmx")); [tauto|].
      destruct (decide (provider = lit "gmail")); [tauto|].
      destruct (decide (provider = lit "outlook")); [tauto|].
      assert (ConfigEnv.lookup_provider provider ConfigEnv.defaults = None)
        by (by apply builtin_providers).
      congruence.
    + apply builtin_providers in E as (H1 & H2 & H3).
      split; [by intros [d Hd]|tauto].
Qed.

End Files.

(** A file that lists one provider, and no other. *)
Definition demo_config : ConfigEnv.config_file :=
  {| ConfigEnv.providers :=
       Some [(lit "yahoo",
              ConfigEnv.builtin "Yahoo" "imap.mail.yahoo.com")];
     ConfigEnv.default_provider := None |}.

Lemma explicit_config_path_shadows_defaults_witness :
  exists msg,
    ConfigEnv.load_provider_config nat [] (fun _ => true)
      (fun _ => demo_config) inr (lit "gmx") (Some 1%nat)
    = inl (ValueError msg).
Proof.
  refine (proj1 (proj2 (proj2
            (explicit_config_path_shadows_defaults nat [] (fun _ => true)
               (fun _ => demo_config) inr (lit "gmx"))))
            (Some 1%nat) 1%nat _ _); reflexivity.
Defined.

End ConfigExtra.

(* ===================================================================== *)
(** * Properties of the deletion of a directory and of the constructor of
      the uploader *)
(* ===================================================================== *)

Module UtilsExtra.
Import Archiver UtilsFs PyStrMore.

(** X20: deleting a directory succeeds exactly when the path is an entry
    that is a directory; it then removes the path and everything under it
    and keeps every other entry as it was.  When the path does not exist,
    or is a file, nothing is removed. *)
Theorem delete_directory_removes_subtree (path : Path) (fs : filesystem) :
  let res := delete_directory path fs in
  (res.1 = true <-> fs !! path = Some Dir)
  /\ (res.1 = false -> res.2 = fs)
  /\ (res.1 = true ->
      forall q : Path,
        res.2 !! q = if decide (path `prefix_of` q) then None else fs !! q).
Proof.
  cbv zeta. unfold delete_directory.
  destruct (fs !! path) as [[content|]|] eqn:E; simpl.
  - split; [split; done|]. split; done.
  - split; [split; done|]. split; [done|]. intros _ q. unfold rmtree.
    destruct (decide (path `prefix_of` q)) as [Hq|Hq].
    + apply map_lookup_filter_None. right. intros n _ Hn. by apply Hn.
    + destruct (fs !! q) as [n|] eqn:Hn.
      * by apply map_lookup_filter_Some.
      * apply map_lookup_filter_None. by left.
  - split; [split; done|]. split; done.
Qed.

(** A small tree: a directory with a subdirectory and a file in it, and a
    file beside it. *)
Definition demo_tree : filesystem :=
  {[ [lit "out"] := Dir;
     [lit "out"; lit "INBOX"] := Dir;
     [lit "out"; lit "INBOX"; lit "email.eml"] := File [Byte.x48; Byte.x69];
     [lit "notes.txt"] := File [Byte.x48] ]}.

Lemma delete_directory_removes_subtree_witness :
  (delete_directory [lit "out"] demo_tree).1 = true
  /\ (delete_directory [lit "out"] demo_tree).2 !! [lit "out"] = None
  /\ (delete_directory [lit "out"] demo_tree).2
       !! [lit "out"; lit "INBOX"; lit "email.eml"] = None
  /\ (delete_directory [lit "out"] demo_tree).2 !! [lit "notes.txt"]
     = Some (File [Byte.x48])
  /\ (delete_directory [lit "notes.txt"] demo_tree).2 = demo_tree.
Proof.
  destruct (delete_directory_removes_subtree [lit "out"] demo_tree)
    as (Hdir & _ & Hgone).
  assert ((delete_directory [lit "out"] demo_tree).1 = true) as Hdone
    by (apply Hdir; reflexivity).
  split; [exact Hdone|].
  split; [by rewrite (Hgone Hdone)|].
  split; [by rewrite (Hgone Hdone)|].
  split; [by rewrite (Hgone Hdone)|].
  apply (proj1 (proj2 (delete_directory_removes_subtree [lit "notes.txt"]
                         demo_tree))).
  reflexivity.
Defined.

(** ** The base path of the uploader *)

Lemma lstrip_chars_head (chars s : pystr) (c : N) :
  head (lstrip_chars chars s) = Some c -> existsb (N.eqb c) chars = false.
Proof.
  induction s as [|d s IH]; simpl; [done|].
  destruct (existsb (N.eqb d) chars) eqn:E; [done|].
  simpl. by intros [= <-].
Qed.

Lemma lstrip_chars_id (chars s : pystr) :
  (forall c, head s = Some c -> existsb (N.eqb c) chars = false) ->
  lstrip_chars chars s = s.
Proof.
  destruct s as [|d s]; simpl; [done|].
  intros H. by rewrite (H d eq_refl).
Qed.

Lemma lstrip_chars_subseteq (chars s : pystr) : lstrip_chars chars s ⊆ s.
Proof.
  induction s as [|d s IH]; simpl; [done|].
  destruct (existsb (N.eqb d) chars); [|done].
  intros c Hc. right. by apply IH.
Qed.

Lemma last_rev (l : pystr) : last (rev l) = head l.
Proof. rewrite rev_alt. apply (last_reverse l). Qed.

Lemma elem_of_rev (l : pystr) (c : N) : c ∈ rev l <-> c ∈ l.
Proof. rewrite rev_alt. apply elem_of_reverse. Qed.

Lemma rstrip_chars_last (chars s : pystr) (c : N) :
  last (rstrip_chars chars s) = Some c -> existsb (N.eqb c) chars = false.
Proof.
  unfold rstrip_chars. rewrite last_rev. apply lstrip_chars_head.
Qed.

Lemma rstrip_chars_id (chars s : pystr) :
  (forall c, last s = Some c -> existsb (N.eqb c) chars = false) ->
  rstrip_chars chars s = s.
Proof.
  intros H. unfold rstrip_chars. rewrite lstrip_chars_id.
  - apply rev_involutive.
  - intros c Hc. apply H. rewrite <- (rev_involutive s).
    by rewrite last_rev.
Qed.

Lemma rstrip_chars_subseteq (chars s : pystr) : rstrip_chars chars s ⊆ s.
Proof.
  unfold rstrip_chars. intros c Hc.
  rewrite elem_of_rev in Hc. apply lstrip_chars_subseteq in Hc.
  by rewrite elem_of_rev in Hc.
Qed.

Lemma absent_not_first (ch : N) (s : pystr) (c : N) :
  ch ∉ s -> head s = Some c -> existsb (N.eqb c) [ch] = false.
Proof.
  destruct s as [|d s]; simpl; [done|].
  intros [Hne _]%not_elem_of_cons [= <-].
  rewrite orb_false_r. apply N.eqb_neq. congruence.
Qed.

Lemma absent_not_last (ch : N) (s : pystr) (c : N) :
  ch ∉ s -> last s = Some c -> existsb (N.eqb c) [ch] = false.
Proof.
  intros Hno Hlast. simpl. rewrite orb_false_r. apply N.eqb_neq.
  intros ->. apply Hno. by apply last_Some_elem_of.
Qed.

(** X21: the base path the uploader keeps holds no forward slash and does
    not end with a backslash, and normalising it again changes nothing. *)
Theorem base_path_is_normalised (base_path : pystr) :
  let kept := UploaderInit.normalize_base_path base_path in
  (47 ∉ kept) /\ last kept <> Some 92
  /\ UploaderInit.normalize_base_path kept = kept.
Proof.
  cbv zeta.
  assert (47 ∉ UploaderInit.normalize_base_path base_path) as Hslash.
  { unfold UploaderInit.normalize_base_path. intros Hin.
    apply rstrip_chars_subseteq in Hin.
    by apply (UploaderExtra.replace_removes 47 92) in Hin. }
  assert (last (UploaderInit.normalize_base_path base_path) <> Some 92)
    as Hlast.
  { unfold UploaderInit.normalize_base_path. intros Hl.
    by apply rstrip_chars_last in Hl. }
  split; [done|]. split; [done|].
  set (kept := UploaderInit.normalize_base_path base_path) in *.
  unfold UploaderInit.normalize_base_path at 1.
  unfold strip_chars.
  rewrite (lstrip_chars_id (lit "/") kept)
    by (intros c; by apply absent_not_first).
  rewrite (rstrip_chars_id (lit "/") kept)
    by (intros c; by apply absent_not_last).
  rewrite UploaderExtra.replace_absent by done.
  apply rstrip_chars_id. intros c Hc. simpl.
  rewrite orb_false_r. apply N.eqb_neq. congruence.
Qed.

(** The base paths of the test suite and of the command line. *)
Example normalize_examples :
  UploaderInit.normalize_base_path (lit "/mail-archive/user/folder")
  = lit "mail-archive\user\folder"
  /\ UploaderInit.normalize_base_path (lit "/archive/") = lit "archive"
  /\ UploaderInit.normalize_base_path (lit "/") = [].
Proof. split; [by vm_compute|]. split; by vm_compute. Qed.

End UtilsExtra.

(* ===================================================================== *)
(** * Properties of the handlers of the command line *)
(* ===================================================================== *)

Module CliExtra.
Import Archiver ArchiverFacts Cli.

(** ** Cleaning after a download *)

Section Clean.
Variable db : Config.UnicodeDB.
Variable datetime : Type.
Variable strftime_before : datetime -> pystr.
Variable now : datetime.
Variable minus : datetime -> Config.timedelta -> option datetime.
Variable client : option (IMAPClient datetime).
Variable confirm : pystr -> bool.

Local Abbreviation delete :=
  (delete_folder_contents datetime strftime_before client confirm).

Lemma mutation_needs_both_answers (folder_name : pystr) (dry_run : bool)
    (since_date : option datetime) :
  existsb mutates (delete folder_name dry_run since_date).2 = true ->
  dry_run = false
  /\ confirm prompt_sure = true /\ confirm prompt_again = true.
Proof.
  destruct client as [c|]; [|done].
  unfold delete_folder_contents, _select_folder_for_delete.
  rewrite search_for_delete.
  destruct (select_folder c folder_name false) as [|[[|total]|]];
    simpl; try done.
  destruct (matched _ _ c since_date) as [|uid rest]; [done|].
  simpl. destruct dry_run; [done|].
  rewrite confirm_deletion_cases.
  destruct (confirm prompt_sure); [|done].
  by destruct (confirm prompt_again).
Qed.

(** X22: the clean step sends nothing to the server when the retention
    expression is malformed, and, outside a dry run, when the download
    reported no message; it sends delete or expunge only outside a dry run,
    after a download that reported at least one message, and after two
    affirmative answers. *)
Theorem clean_sends_nothing_without_cause (args : CLIArgs)
    (folder_name : pystr) (emails_count : nat) :
  let res := handle_clean_operation db datetime strftime_before now minus
               client confirm args folder_name emails_count in
  (forall expr msg,
     since (download args) = Some expr -> expr <> [] ->
     Config.parse_time_range db expr = inl (Config.ValueError msg) ->
     res = inr [])
  /\ (dry_run args = false -> emails_count = 0%nat ->
      forall events, res = inr events -> events = [])
  /\ (forall events,
        res = inr events -> existsb mutates events = true ->
        dry_run args = false /\ (0 < emails_count)%nat
        /\ confirm prompt_sure = true /\ confirm prompt_again = true).
Proof.
  cbv zeta. unfold handle_clean_operation.
  assert (Hrun : forall since_date events,
    (if dry_run args
     then inr (delete folder_name true since_date).2
     else if (0 <? emails_count)%nat
          then inr (delete folder_name false since_date).2
          else inr []) = (inr events : Config.exn + list event) ->
    (dry_run args = false -> emails_count = 0%nat -> events = [])
    /\ (existsb mutates events = true ->
        dry_run args = false /\ (0 < emails_count)%nat
        /\ confirm prompt_sure = true /\ confirm prompt_again = true)).
  { intros since_date events. destruct (dry_run args).
    - intros [= <-]. split; [done|].
      by intros [? _]%mutation_needs_both_answers.
    - destruct (0 <? emails_count)%nat eqn:Hcount.
      + apply Nat.ltb_lt in Hcount. intros [= <-]. split; [lia|].
        intros (_ & H1 & H2)%mutation_needs_both_answers. auto.
      + intros [= <-]. split; done. }
  split; [|split].
  - intros expr msg -> Hne Hparse. destruct expr; [done|].
    by rewrite Hparse.
  - intros Hdry Hcount events.
    destruct (since (download args)) as [[|ch expr]|];
      try (intros H; by apply (Hrun None events H)).
    destruct (Config.parse_time_range db (ch :: expr)) as [[msg|]|delta];
      [by intros [= <-]|done|].
    destruct (minus now delta) as [since_date|]; [|done].
    intros H. by apply (Hrun (Some since_date) events H).
  - intros events.
    destruct (since (download args)) as [[|ch expr]|];
      try (intros H; by apply (Hrun None events H)).
    destruct (Config.parse_time_range db (ch :: expr)) as [[msg|]|delta];
      [by intros [= <-]|done|].
    destruct (minus now delta) as [since_date|]; [|done].
    intros H. by apply (Hrun (Some since_date) events H).
Qed.

End Clean.

(** ** Uploading after a download *)

Section Upload.
Variable sanitize_filename : pystr -> pystr.
Context {W : Type}.
Variable smbclient : Uploader.SMBClient W.
Variable installed : bool.

(** The uploader [handle_nas_upload] builds for a context. *)
Definition uploader_of (context : UploadContext) : Uploader.NASUploader :=
  UploaderInit.init
    {| ConfigEnv.NASConfig.host :=
         ConfigEnv.NASConfig.host (nas_config context);
       ConfigEnv.NASConfig.share :=
         ConfigEnv.NASConfig.share (nas_config context);
       ConfigEnv.NASConfig.username :=
         ConfigEnv.NASConfig.username (nas_config context);
       ConfigEnv.NASConfig.password :=
         ConfigEnv.NASConfig.password (nas_config context);
       ConfigEnv.NASConfig.base_path :=
         ConfigEnv.NASConfig.get_folder_path (nas_config context)
           (ConfigEnv.MailConfig.account_name (mail_config context))
           (sanitize_filename (folder_name context)) |}.

Lemma upload_nothing_when_all_present (self : Uploader.NASUploader)
    (files : list Uploader.LocalFile) (r : @Uploader.run W) :
  UploaderFacts.all_present smbclient self files ->
  (Uploader.upload_directory smbclient self installed files false false
     r).1 = (0, 0)%nat.
Proof.
  intros Hall. unfold Uploader.upload_directory.
  destruct installed; [|done]. simpl.
  rewrite UploaderFacts.execute_upload_eq. cbv zeta.
  destruct ((Uploader.register_session _ _ _ _ _).1); [|done].
  rewrite UploaderFacts.upload_files_with_progress_tally.
  by apply UploaderFacts.classify_all_present.
Qed.

(** X23: the upload handler deletes the local files only after a run that
    is not a dry run, followed a download that reported messages, and
    uploaded at least one file, and only when asked to; in a dry run it
    reports success and touches nothing; and when every file is found on
    the share already and is therefore skipped, it reports failure and
    keeps the local files. *)
Theorem local_files_deleted_only_after_upload (args : CLIArgs)
    (context : UploadContext) (r : @Uploader.run W) (fs : filesystem) :
  let res := handle_nas_upload sanitize_filename smbclient installed args
               context (r, fs) in
  (dry_run args = true -> res = (true, (r, fs)))
  /\ (dry_run args = false -> emails_count context = 0%nat ->
      res = (false, (r, fs)))
  /\ (res.2.2 <> fs ->
      res.1 = true /\ delete_local (download args) = true
      /\ dry_run args = false /\ emails_count context <> 0%nat)
  /\ (res.1 = false -> res.2.2 = fs)
  /\ (dry_run args = false -> overwrite (download args) = false ->
      UploaderFacts.all_present smbclient (uploader_of context)
        (UploaderInit.files_under (local_folder context) fs) ->
      res.1 = false /\ res.2.2 = fs).
Proof.
  cbv zeta. unfold handle_nas_upload. fold (uploader_of context).
  destruct (dry_run args) eqn:Hdry.
  { repeat split; try done. }
  destruct (emails_count context =? 0)%nat eqn:Hcount.
  { apply Nat.eqb_eq in Hcount. repeat split; try done. }
  apply Nat.eqb_neq in Hcount.
  destruct (Uploader.upload_directory smbclient (uploader_of context)
              installed
              (UploaderInit.files_under (local_folder context) fs) false
              (overwrite (download args)) r) as [[n size] r'] eqn:Hup.
  simpl. split; [done|]. split; [done|].
  destruct (0 <? n)%nat eqn:Hn; simpl.
  - destruct (delete_local (download args)) eqn:Hdel; simpl.
    + split; [done|]. split; [done|]. intros _ Hover Hall.
      rewrite Hover in Hup.
      pose proof (upload_nothing_when_all_present (uploader_of context)
                    _ r Hall) as H0.
      rewrite Hup in H0. simpl in H0. injection H0 as -> _. done.
    + split; [done|]. split; [done|]. intros _ Hover Hall.
      rewrite Hover in Hup.
      pose proof (upload_nothing_when_all_present (uploader_of context)
                    _ r Hall) as H0.
      rewrite Hup in H0. simpl in H0. injection H0 as -> _. done.
  - repeat split; done.
Qed.

End Upload.

(** ** The handlers, on the small mailbox and share *)

Definition demo_download_options (expr : string) : DownloadOptions :=
  {| folder := Some (lit "INBOX"); output := lit "./downloads";
     since := Some (lit expr); overwrite := false; clean := true;
     delete_local := true |}.

Definition demo_args (expr : string) (dry : bool) : CLIArgs :=
  {| download := demo_download_options expr; nas := true; dry_run := dry |}.

Definition demo_context : UploadContext :=
  {| nas_config :=
       {| ConfigEnv.NASConfig.host := lit "nas.local";
          ConfigEnv.NASConfig.share := lit "backup";
          ConfigEnv.NASConfig.username := lit "user";
          ConfigEnv.NASConfig.password := lit "secret";
          ConfigEnv.NASConfig.base_path := lit "/mail-archive" |};
     mail_config :=
       {| ConfigEnv.MailConfig.email := lit "user@example.com";
          ConfigEnv.MailConfig.password := lit "pw";
          ConfigEnv.MailConfig.provider := lit "gmx" |};
     folder_name := lit "INBOX";
     local_folder := demo_folder_output;
     emails_count := 1 |}.

Lemma clean_sends_nothing_without_cause_witness :
  handle_clean_operation ConfigFacts.ascii_db nat demo_strftime 0%nat
    (fun d _ => Some d) (Some demo_client) (fun _ => true)
    (demo_args "30X" false) (lit "INBOX") 1
  = inr [].
Proof.
  refine (proj1 (clean_sends_nothing_without_cause ConfigFacts.ascii_db nat
                   demo_strftime 0%nat (fun d _ => Some d)
                   (Some demo_client) (fun _ => true)
                   (demo_args "30X" false) (lit "INBOX") 1%nat)
                (lit "30X")
                (Config.invalid_format_msg (lit "30X")) _ _ _).
  - reflexivity.
  - discriminate.
  - by vm_compute.
Defined.

Lemma local_files_deleted_only_after_upload_witness :
  handle_nas_upload NamePolicy.sanitize UploaderFacts.agreeable_share true
    (demo_args "30D" false) demo_context (UploaderFacts.start tt, demo_fs)
  = (false, ((handle_nas_upload NamePolicy.sanitize
                UploaderFacts.agreeable_share true (demo_args "30D" false)
                demo_context (UploaderFacts.start tt, demo_fs)).2.1,
             demo_fs)).
Proof.
  destruct (proj2 (proj2 (proj2 (proj2
              (local_files_deleted_only_after_upload NamePolicy.sanitize
                 UploaderFacts.agreeable_share true (demo_args "30D" false)
                 demo_context (UploaderFacts.start tt) demo_fs))))
              eq_refl eq_refl) as [H1 H2].
  - intros f Hf w. reflexivity.
  - destruct (handle_nas_upload _ _ _ _ _ _) as [b [r' fs']].
    simpl in *. by subst.
Defined.

End CliExtra.
